(** * The tick engine of [game/engine.py]

    A shallow embedding of [Engine] (boot, load, pre_tick, tick, post_tick,
    shutdown and loop) together with the statements of its specification.

    Conventions.
    - Time is counted in microseconds, the resolution of [datetime.now()];
      [clock] is the wall clock.  The engine's own statements, and the
      import of a client, take no time: the clock only advances inside
      [Thread.join], and a join that times out returns at its deadline.
      [join_all_late] is the collection of a tick without this
      simplification.
    - [sys.stdout], the files written and the calls into client code are
      recorded, in order, in the [out] trace of the engine.
    - A Python exception is the result [Exc]; [os._exit] is the result
      [Halt], after which nothing runs, not even a [finally] block.
    - Quiet mode only redirects [sys.stdout] and is left out. *)

From Stdlib Require Import ZArith List String Ascii Bool Lia.
From Stdlib Require Import Permutation Sorted.
Import ListNotations.

Open Scope string_scope.
Open Scope list_scope.
Open Scope Z_scope.

Notation "a +++ b" := (String.append a b) (at level 60, right associativity).

(** ** Strings *)

Definition nl : string := String (ascii_of_nat 10) EmptyString.
Definition dq : string := String (ascii_of_nat 34) EmptyString.

Definition upper_ascii (c : ascii) : ascii :=
  let n := nat_of_ascii c in
  if ((97 <=? n) && (n <=? 122))%nat then ascii_of_nat (n - 32) else c.

(** [str.upper()], on ASCII: Python also changes letters outside ASCII,
    which this leaves as they are. *)
Fixpoint upper (s : string) : string :=
  match s with
  | EmptyString => EmptyString
  | String c r => String (upper_ascii c) (upper r)
  end.

(** A string of ASCII characters only, on which [upper] is the
    [str.upper()] of Python. *)
Fixpoint ascii_only (s : string) : bool :=
  match s with
  | EmptyString => true
  | String c r => (nat_of_ascii c <? 128)%nat && ascii_only r
  end.

(** [needle in hay]. *)
Fixpoint contains (needle hay : string) : bool :=
  String.prefix needle hay ||
  match hay with
  | EmptyString => false
  | String _ r => contains needle r
  end.

(** [filename.replace('.py', '')]. *)
Fixpoint replace_py (s : string) : string :=
  match s with
  | String "." (String "p" (String "y" r)) => replace_py r
  | String c r => String c (replace_py r)
  | EmptyString => EmptyString
  end.

(** [repr] of a list of strings, as an f-string prints it. *)
Definition py_repr (l : list string) : string :=
  "[" +++ String.concat ", " (map (fun s => "'" +++ s +++ "'") l) +++ "]".

(** Truth value of [source] in [if source:]. *)
Definition truthy (source : option string) : bool :=
  match source with
  | Some (String _ _) => true
  | _ => false
  end.

(** ** Client code and threads *)

Definition Action := string.
Definition Args := list string.
Definition Json := string.

(** What a call into client code does: it returns [r] after [d]
    microseconds, raises after [d] microseconds, or never comes back. *)
Inductive Behaviour (R : Type) : Type :=
| Returns (d : Z) (r : R)
| Raises (d : Z) (msg : string)
| Hangs.
Arguments Returns {R} d r.
Arguments Raises {R} d msg.
Arguments Hangs {R}.

(** The attribute [team_name] of a client object: missing (the lookup
    raises [msg]) or a callable. *)
Inductive TeamNameAttr : Type :=
| NoTeamName (msg : string)
| TeamName (f : Behaviour string).

(** The attribute [take_turn] of a client object: missing (the lookup
    raises [msg]) or a callable that returns a list of actions or
    [None]. *)
Inductive TakeTurnAttr : Type :=
| NoTakeTurn (msg : string)
| TakeTurn (f : Args -> Behaviour (option (list Action))).

(** [UserClient]: the object [im.Client()] builds. *)
Record UserClient : Type := mkUserClient {
  team_name_attr : TeamNameAttr;
  take_turn : TakeTurnAttr
}.

(** Modelled from the spec: [Thread] and [CommunicationThread] of
    [game.utils.thread], which are not part of the engine file.  A thread
    runs one call; its result and its error stay [None] until the call is
    over, and [join] waits for the end of the call or for the timeout,
    whichever comes first. *)
Record Thread (R : Type) : Type := mkThread {
  func : Behaviour R;
  started : Z
}.
Arguments mkThread {R} func started.
Arguments func {R} t.
Arguments started {R} t.

Definition start {R} (f : Behaviour R) (now : Z) : Thread R := mkThread f now.

Definition finished {R} (thr : Thread R) (now : Z) : bool :=
  match func thr with
  | Returns d _ => started thr + d <=? now
  | Raises d _ => started thr + d <=? now
  | Hangs => false
  end.

Definition is_alive {R} (thr : Thread R) (now : Z) : bool :=
  negb (finished thr now).

Definition thread_error {R} (thr : Thread R) (now : Z) : option string :=
  match func thr with
  | Raises _ msg => if finished thr now then Some msg else None
  | _ => None
  end.

(** [thr.result] of a turn thread. *)
Definition result (thr : Thread (option (list Action))) (now : Z)
  : option (list Action) :=
  match func thr with
  | Returns _ r => if finished thr now then r else None
  | _ => None
  end.

(** [thr.retrieve_value()] of a communication thread. *)
Definition retrieve_value (thr : Thread string) (now : Z) : option string :=
  match func thr with
  | Returns _ r => if finished thr now then Some r else None
  | _ => None
  end.

(** [thr.join(timeout)]: the clock when the call returns. *)
Definition join {R} (thr : Thread R) (timeout : Z) (now : Z) : Z :=
  if finished thr now then now
  else match func thr with
       | Returns d _ => Z.min (started thr + d) (now + timeout)
       | Raises d _ => Z.min (started thr + d) (now + timeout)
       | Hangs => now + timeout
       end.

(** ** Players *)

(** Modelled from the spec: [Player] of [game.common.player] (the Client
    record: identity, functional flag, last error, last actions). *)
Record Player : Type := mkPlayer {
  id : string;
  file_name : option string;
  team_name : option string;
  functional : bool;
  error : option string;
  actions : list Action;
  code : option UserClient
}.

Definition Player_new (pid : string) : Player :=
  mkPlayer pid None None true None [] None.

Definition set_functional (b : bool) (p : Player) : Player :=
  mkPlayer (id p) (file_name p) (team_name p) b (error p) (actions p) (code p).
Definition set_error (x : option string) (p : Player) : Player :=
  mkPlayer (id p) (file_name p) (team_name p) (functional p) x (actions p) (code p).
Definition set_actions (a : list Action) (p : Player) : Player :=
  mkPlayer (id p) (file_name p) (team_name p) (functional p) (error p) a (code p).
Definition set_code (c : option UserClient) (p : Player) : Player :=
  mkPlayer (id p) (file_name p) (team_name p) (functional p) (error p) (actions p) c.
Definition set_file_name (f : option string) (p : Player) : Player :=
  mkPlayer (id p) f (team_name p) (functional p) (error p) (actions p) (code p).
Definition set_team_name (t : option string) (p : Player) : Player :=
  mkPlayer (id p) (file_name p) t (functional p) (error p) (actions p) (code p).

(** [player.functional = False; player.error = msg]. *)
Definition retire (msg : string) (p : Player) : Player :=
  set_error (Some msg) (set_functional false p).

(** What the engine hands to the master controller: [self.clients[0]] or
    [self.clients]. *)
Inductive ClientsArg : Type :=
| One (c : Player)
| All (cs : list Player).

(** ** Configuration, environment, controller *)

(** The constants of [game.config] the engine reads.
    [MAX_SECONDS_PER_TURN] is kept in microseconds. *)
Record Config : Type := mkConfig {
  CLIENT_KEYWORD : string;
  MAX_TICKS : Z;
  MAX_SECONDS_PER_TURN : Z;
  SET_NUMBER_OF_CLIENTS_START : option Z;
  MIN_CLIENTS_START : option Z;
  MAX_CLIENTS_START : option Z;
  SET_NUMBER_OF_CLIENTS_CONTINUE : option Z;
  MIN_CLIENTS_CONTINUE : option Z;
  MAX_CLIENTS_CONTINUE : option Z
}.

(** [importlib.import_module(...)] followed by [im.Client()], when they
    come back: with the object, or with an [Exception] (the traceback
    line 101 records).  A module that raises [SystemExit], ends the
    process or never comes back is not covered. *)
Inductive ImportResult : Type :=
| Imported (obj : UserClient)
| ImportFails (traceback : string).

(** One name of [os.listdir(CLIENT_DIRECTORY)] with what the file system,
    [Player()], [verify_code] and the import give for it. *)
Record DirEntry : Type := mkDirEntry {
  entry_name : string;
  entry_isdir : bool;
  entry_id : string;
  entry_verify_code : list string * bool * bool;
  entry_import : ImportResult
}.

Record Env : Type := mkEnv {
  logs_dir_exists : bool;
  game_map_exists : bool;
  game_map : Json;
  client_directory : list DirEntry
}.

(** [MasterController]: the engine only calls it; what it computes is its
    own business.  It reads the clients it is given. *)
Class Controller (MC : Type) : Type := {
  game_loop_logic : MC -> list string;
  give_clients_objects : MC -> ClientsArg -> option Json -> MC;
  interpret_current_turn_data : MC -> ClientsArg -> option Json -> Z -> MC;
  client_turn_arguments : MC -> Player -> Z -> Args;
  turn_logic : MC -> ClientsArg -> Z -> MC;
  create_turn_log : MC -> ClientsArg -> Z -> Json;
  return_final_results : MC -> ClientsArg -> Z -> Json;
  game_over : MC -> bool
}.

(** Modelled from the spec: [verify_num_clients] of
    [game.utils.validation] (the liveness gate: exact mode when a set
    number is configured, range mode otherwise; a reason or [None]). *)
Definition verify_num_clients (clients : list Player)
    (set_clients min_clients max_clients : option Z) : option string :=
  let n := Z.of_nat (List.length clients) in
  match set_clients with
  | Some k =>
      if n =? k then None else Some "Number of clients is not the set value."
  | None =>
      match min_clients with
      | Some lo =>
          if n <? lo then Some "Number of clients is less than the minimum."
          else match max_clients with
               | Some hi =>
                   if hi <? n
                   then Some "Number of clients exceeds the maximum."
                   else None
               | None => None
               end
      | None =>
          match max_clients with
          | Some hi =>
              if hi <? n then Some "Number of clients exceeds the maximum."
              else None
          | None => None
          end
      end
  end.

(** ** Engine state and effects *)

Inductive Event : Type :=
| Print (s : string)
| Flush
| RemoveOldLogs
| WriteLogs
| WriteResults (results : Json) (reason : option string)
| WriteTurnLog (data : Json) (tick : Z)
| VerifyCode (file : string)
| ImportModule (file : string)
| CallTeamName (file : string).

Record Engine (MC : Type) : Type := mkEngine {
  clients : list Player;
  master_controller : MC;
  tick_number : Z;
  world : option Json;
  current_world_key : option string;
  clock : Z;
  out : list Event
}.
Arguments mkEngine {MC}.
Arguments clients {MC} e.
Arguments master_controller {MC} e.
Arguments tick_number {MC} e.
Arguments world {MC} e.
Arguments current_world_key {MC} e.
Arguments clock {MC} e.
Arguments out {MC} e.

(** [Engine.__init__], given the controller it builds and the time. *)
Definition Engine_new {MC} (mc : MC) (now : Z) : Engine MC :=
  mkEngine [] mc 0 None None now [].

Inductive Res (A : Type) : Type :=
| Ret (a : A)
| Exc (e : string)
| Halt (status : Z).
Arguments Ret {A} a.
Arguments Exc {A} e.
Arguments Halt {A} status.

Definition M (MC A : Type) : Type := Engine MC -> Res A * Engine MC.

Definition ret {MC A} (a : A) : M MC A := fun e => (Ret a, e).

Definition bind {MC A B} (m : M MC A) (k : A -> M MC B) : M MC B :=
  fun e =>
    match m e with
    | (Ret a, e') => k a e'
    | (Exc x, e') => (Exc x, e')
    | (Halt s, e') => (Halt s, e')
    end.

Notation "x <- m ;; k" := (bind m (fun x => k))
  (at level 61, m at next level, right associativity).
Notation "m ;; k" := (bind m (fun _ => k))
  (at level 61, right associativity).

Definition raise {MC A} (x : string) : M MC A := fun e => (Exc x, e).
Definition os_exit {MC A} (status : Z) : M MC A := fun e => (Halt status, e).
Definition get {MC} : M MC (Engine MC) := fun e => (Ret e, e).

Definition emit {MC} (ev : Event) : M MC unit :=
  fun e => (Ret tt,
            mkEngine (clients e) (master_controller e) (tick_number e)
                     (world e) (current_world_key e) (clock e)
                     (out e ++ [ev])).

Definition emit_all {MC} (evs : list Event) : M MC unit :=
  fun e => (Ret tt,
            mkEngine (clients e) (master_controller e) (tick_number e)
                     (world e) (current_world_key e) (clock e)
                     (out e ++ evs)).

Definition set_clients {MC} (cs : list Player) : M MC unit :=
  fun e => (Ret tt,
            mkEngine cs (master_controller e) (tick_number e)
                     (world e) (current_world_key e) (clock e) (out e)).

Definition set_master_controller {MC} (mc : MC) : M MC unit :=
  fun e => (Ret tt,
            mkEngine (clients e) mc (tick_number e)
                     (world e) (current_world_key e) (clock e) (out e)).

Definition set_tick_number {MC} (n : Z) : M MC unit :=
  fun e => (Ret tt,
            mkEngine (clients e) (master_controller e) n
                     (world e) (current_world_key e) (clock e) (out e)).

Definition set_world {MC} (w : option Json) : M MC unit :=
  fun e => (Ret tt,
            mkEngine (clients e) (master_controller e) (tick_number e)
                     w (current_world_key e) (clock e) (out e)).

Definition set_current_world_key {MC} (k : option string) : M MC unit :=
  fun e => (Ret tt,
            mkEngine (clients e) (master_controller e) (tick_number e)
                     (world e) k (clock e) (out e)).

Definition set_clock {MC} (t : Z) : M MC unit :=
  fun e => (Ret tt,
            mkEngine (clients e) (master_controller e) (tick_number e)
                     (world e) (current_world_key e) t (out e)).

(** [try: body except Exception as e: handler(e)]. *)
Definition try_except {MC A} (body : M MC A) (handler : string -> M MC A)
  : M MC A :=
  fun e =>
    match body e with
    | (Exc x, e') => handler x e'
    | r => r
    end.

(** [try: body finally: final].  A halted process runs no [finally]; an
    exception of the body is raised again when [final] returns. *)
Definition try_finally {MC A} (body : M MC A) (final : M MC unit) : M MC A :=
  fun e =>
    match body e with
    | (Halt s, e') => (Halt s, e')
    | (Ret a, e') =>
        match final e' with
        | (Ret _, e'') => (Ret a, e'')
        | (Exc y, e'') => (Exc y, e'')
        | (Halt s, e'') => (Halt s, e'')
        end
    | (Exc x, e') =>
        match final e' with
        | (Ret _, e'') => (Exc x, e'')
        | (Exc y, e'') => (Exc y, e'')
        | (Halt s, e'') => (Halt s, e'')
        end
    end.

(** ** The engine *)

Section EngineOps.

Context {MC : Type} `{Controller MC}.
Variable cfg : Config.
Variable env : Env.

(** [SET_NUMBER_OF_CLIENTS_START == 1]. *)
Definition single_client : bool :=
  match SET_NUMBER_OF_CLIENTS_START cfg with
  | Some 1 => true
  | _ => false
  end.

(** The argument of every controller call: [self.clients[0]] in the
    single-client setting, [self.clients] otherwise. *)
Definition clients_arg : M MC ClientsArg :=
  e <- get ;;
  if single_client then
    match clients e with
    | [] => raise "list index out of range"
    | c :: _ => ret (One c)
    end
  else ret (All (clients e)).

(** The errors gathered by the loop of lines 288-290. *)
Fixpoint error_output (cs : list Player) : string :=
  match cs with
  | [] => EmptyString
  | client :: rest =>
      match error client with
      | Some err => err +++ nl +++ error_output rest
      | None => error_output rest
      end
  end.

(** Lines 269-303.  Without a source the function returns: the exit of
    line 303 is commented out. *)
Definition shutdown (source : option string) : M MC unit :=
  emit WriteLogs ;;
  who <- clients_arg ;;
  e <- get ;;
  let results_information :=
    return_final_results (master_controller e) who (tick_number e) in
  emit (WriteResults results_information
          (if truthy source then source else None)) ;;
  match source with
  | Some (String c s) =>
      let output := nl +++ error_output (clients e) in
      emit (Print (nl +++ "Game has ended due to " +++ String c s +++ ": ["
                   +++ output +++ "].")) ;;
      emit Flush ;;
      os_exit 1
  | _ =>
      emit (Print (nl +++ "Game has successfully ended.")) ;;
      emit Flush
  end.

(** Lines 151-170. *)
Definition load : M MC unit :=
  if negb (logs_dir_exists env) then raise "Log directory not found."
  else if negb (game_map_exists env) then raise "Game map not found."
  else emit RemoveOldLogs ;; set_world (Some (game_map env)).

(** *** boot *)

(** Lines 84-91: the marks left by [verify_code]. *)
Definition verify_marks (scan : list string * bool * bool) (player : Player)
  : Player :=
  let '(imports, opening, _) := scan in
  let p1 :=
    if (List.length imports =? 0)%nat then player
    else retire ("Player has attempted illegal imports: " +++ py_repr imports)
                player in
  if opening
  then retire ("Player is using " +++ dq +++ "open" +++ dq
               +++ " which is forbidden.") p1
  else p1.

(** [thr.join(0.01)]. *)
Definition team_name_timeout : Z := 10000.

(** Lines 105-126 (and the handler of lines 127-130 when the lookup of
    [team_name] raises): the player, the clock, and what happened, each
    event with the player as it is when the event happens. *)
Definition handshake (filename : string) (obj : UserClient) (now : Z)
    (player : Player) : Player * list (Event * Player) * Z :=
  match team_name_attr obj with
  | NoTeamName msg =>
      let p1 := set_file_name (Some filename) player in
      let p2 := retire ("'NoneType' object has no attribute 'retrieve_value'"
                        +++ nl +++ "None") p1 in
      (set_functional false p2,
       [(Print ("Bad client for " +++ filename +++ ": exception: " +++ msg), p2);
        (Print "None", p2)],
       now)
  | TeamName f =>
      let thr := start f now in
      let now' := join thr team_name_timeout now in
      let p1 :=
        if is_alive thr now'
        then retire "Client failed to provide a team name in time." player
        else player in
      let p2 :=
        match thread_error thr now' with
        | Some err => retire err p1
        | None => p1
        end in
      (set_team_name (retrieve_value thr now')
         (set_file_name (Some filename) p2),
       [(CallTeamName filename, player)],
       now')
  end.

(** Lines 83-126 for one file that passed the filters, from the player
    [Player()] built. *)
Definition boot_stages (filename : string) (entry : DirEntry) (now : Z)
    (player : Player) : Player * list (Event * Player) * Z :=
  let p1 := verify_marks (entry_verify_code entry) player in
  match entry_import entry with
  | ImportFails traceback =>
      (retire traceback p1,
       [(VerifyCode (filename +++ ".py"), player);
        (ImportModule filename, p1)],
       now)
  | Imported obj =>
      let '(p2, evs, now') :=
        handshake filename obj now (set_code (Some obj) p1) in
      (p2,
       [(VerifyCode (filename +++ ".py"), player);
        (ImportModule filename, p1)] ++ evs,
       now')
  end.

(** One round of the loop of lines 67-130. *)
Definition boot_entry (entry : DirEntry) : M MC unit :=
  let filename := replace_py (entry_name entry) in
  if negb (contains (upper (CLIENT_KEYWORD cfg)) (upper filename)) then ret tt
  else if entry_isdir entry then ret tt
  else
    e <- get ;;
    let '(player, evs, now') :=
      boot_stages filename entry (clock e) (Player_new (entry_id entry)) in
    set_clients (clients e ++ [player]) ;;
    emit_all (map fst evs) ;;
    set_clock now'.

Fixpoint for_each {A} (f : A -> M MC unit) (l : list A) : M MC unit :=
  match l with
  | [] => ret tt
  | x :: rest => f x ;; for_each f rest
  end.

(** [self.clients.sort(key=lambda clnt: clnt.team_name, reverse=True)]:
    a stable sort, largest name first; comparing a name that is [None]
    raises [TypeError]. *)
Fixpoint sort_keys (cs : list Player) : option (list (string * Player)) :=
  match cs with
  | [] => Some []
  | c :: rest =>
      match team_name c, sort_keys rest with
      | Some k, Some l => Some ((k, c) :: l)
      | _, _ => None
      end
  end.

Fixpoint insert_desc (x : string * Player) (l : list (string * Player))
  : list (string * Player) :=
  match l with
  | [] => [x]
  | y :: l' =>
      if String.ltb (fst x) (fst y) then y :: insert_desc x l' else x :: l
  end.

Definition sort_clients (cs : list Player) : option (list Player) :=
  match cs with
  | [] => Some cs
  | [_] => Some cs
  | _ =>
      match sort_keys cs with
      | Some l => Some (map snd (fold_right insert_desc [] l))
      | None => None
      end
  end.

(** Lines 60-148.  When the sort of line 143 fails, the operands named in
    the message of the [TypeError] and the order the list is left in are
    those of the comparisons the interpreter happened to make; the model
    fixes one message and leaves the list as it was. *)
Definition boot : M MC unit :=
  for_each boot_entry (client_directory env) ;;
  e <- get ;;
  let func_clients := filter functional (clients e) in
  match verify_num_clients func_clients
          (SET_NUMBER_OF_CLIENTS_START cfg)
          (MIN_CLIENTS_START cfg) (MAX_CLIENTS_START cfg) with
  | Some _ => shutdown (Some "Client_error")
  | None =>
      match sort_clients (clients e) with
      | None =>
          raise "'<' not supported between instances of 'NoneType' and 'str'"
      | Some sorted =>
          set_clients sorted ;;
          who <- clients_arg ;;
          e' <- get ;;
          set_master_controller
            (give_clients_objects (master_controller e') who (world e'))
      end
  end.

(** *** pre_tick *)

(** Lines 173-181. *)
Definition pre_tick : M MC unit :=
  e <- get ;;
  set_tick_number (tick_number e + 1) ;;
  who <- clients_arg ;;
  e' <- get ;;
  set_master_controller
    (interpret_current_turn_data (master_controller e') who (world e')
       (tick_number e')).

(** *** tick *)

Definition TurnThread := Thread (option (list Action)).

(** Lines 186-197: one thread per functional client, in client order.
    A functional client without code, or whose object has no
    [take_turn], makes [client.code.take_turn] raise in its round of the
    loop. *)
Fixpoint build_threads (mc : MC) (tick : Z) (cs : list Player)
  : string + list (Behaviour (option (list Action))) :=
  match cs with
  | [] => inr []
  | client :: rest =>
      if negb (functional client) then build_threads mc tick rest
      else
        match code client with
        | None => inl "'NoneType' object has no attribute 'take_turn'"
        | Some obj =>
            let arguments := client_turn_arguments mc client tick in
            match take_turn obj with
            | NoTakeTurn msg => inl msg
            | TakeTurn f =>
                match build_threads mc tick rest with
                | inl x => inl x
                | inr threads => inr (f arguments :: threads)
                end
            end
        end
  end.

(** [datetime.microsecond]. *)
Definition microsecond (t : Z) : Z := t mod 1000000.

(** Lines 204-218: the joins, one thread at a time; the clock after the
    last one. *)
Fixpoint join_all (start_time : Z) (threads : list TurnThread) (now : Z)
  : Z :=
  match threads with
  | [] => now
  | thr :: rest =>
      let time_elapsed := microsecond now - microsecond start_time in
      let time_remaining := MAX_SECONDS_PER_TURN cfg - time_elapsed in
      let time_remaining := Z.max 0 time_remaining in
      join_all start_time rest (join thr time_remaining now)
  end.

(** Lines 222-235 for one pair of the zip. *)
Definition collect_one (now : Z) (client : Player) (thr : TurnThread)
  : Player * list Event :=
  let c1 :=
    set_actions (match result thr now with Some r => r | None => [] end)
                client in
  let '(c2, ev2) :=
    if is_alive thr now then
      let msg := id c1 +++ " failed to reply in time and has been dropped." in
      (retire msg c1, [Print msg])
    else (c1, []) in
  let '(c3, ev3) :=
    match thread_error thr now with
    | Some err => (retire err c2, [Print err])
    | None => (c2, [])
    end in
  (c3, ev2 ++ ev3).

(** Lines 221-235: [zip(self.clients, threads)] pairs by position and
    stops at the shorter list; the clients it does not reach are left as
    they are. *)
Fixpoint collect (now : Z) (cs : list Player) (threads : list TurnThread)
  : list Player * list Event :=
  match cs, threads with
  | client :: cs', thr :: threads' =>
      let '(c, ev) := collect_one now client thr in
      let '(rest, evs) := collect now cs' threads' in
      (c :: rest, ev ++ evs)
  | _, _ => (cs, [])
  end.

(** Lines 199-235 on the clients alone: the clients after the collection,
    what was printed and the clock. *)
Definition run_turns (funcs : list (Behaviour (option (list Action))))
    (cs : list Player) (now : Z) : list Player * list Event * Z :=
  let threads := map (fun f => start f now) funcs in
  let start_time := now in
  let now' := join_all start_time threads now in
  (collect now' cs threads, now').

(** Lines 184-250. *)
Definition tick : M MC unit :=
  e <- get ;;
  match build_threads (master_controller e) (tick_number e) (clients e) with
  | inl x => raise x
  | inr funcs =>
      let '(cs, evs, now') := run_turns funcs (clients e) (clock e) in
      set_clock now' ;;
      set_clients cs ;;
      emit_all evs ;;
      match verify_num_clients (filter functional cs)
              (SET_NUMBER_OF_CLIENTS_CONTINUE cfg)
              (MIN_CLIENTS_CONTINUE cfg) (MAX_CLIENTS_CONTINUE cfg) with
      | Some _ => shutdown (Some "Client_error")
      | None => ret tt
      end ;;
      who <- clients_arg ;;
      e' <- get ;;
      set_master_controller
        (turn_logic (master_controller e') who (tick_number e'))
  end.

(** *** post_tick *)

(** Lines 253-266. *)
Definition post_tick : M MC unit :=
  who <- clients_arg ;;
  e <- get ;;
  let data := create_turn_log (master_controller e) who (tick_number e) in
  emit (WriteTurnLog data (tick_number e)) ;;
  if game_over (master_controller e) then shutdown None else ret tt.

(** *** loop *)

(** The [for] loop of lines 43-52 over the keys the controller yields. *)
Fixpoint run_ticks (keys : list string) : M MC unit :=
  match keys with
  | [] => ret tt
  | key :: rest =>
      set_current_world_key (Some key) ;;
      pre_tick ;;
      tick ;;
      post_tick ;;
      e <- get ;;
      if MAX_TICKS cfg <=? tick_number e then ret tt else run_ticks rest
  end.

(** Lines 34-57. *)
Definition loop : M MC unit :=
  try_finally
    (try_except
       (load ;;
        boot ;;
        e <- get ;;
        run_ticks (game_loop_logic (master_controller e)))
       (fun x =>
          emit (Print ("Exception raised during runtime: " +++ x)) ;;
          emit (Print "None")))
    (shutdown None).

End EngineOps.

(** ** Vocabulary of the statements *)

(** The flag of [p'] is set only if the flag of [p] was. *)
Definition no_revival (p p' : Player) : Prop :=
  id p' = id p /\ (functional p' = true -> functional p = true).

Definition flags_only_fall (cs cs' : list Player) : Prop :=
  Forall2 no_revival cs cs'.

(** A computation that relates the clients before and after by [R],
    however it ends. *)
Definition keeps {MC} (R : list Player -> list Player -> Prop) {A}
    (m : M MC A) : Prop :=
  forall e, R (clients e) (clients (snd (m e))).

(** [p'] is the player lines 80-126 leave for the name [entry] of the
    client directory: what the stages make of the player [Player()] built
    for this entry, under its own file name. *)
Definition built_from (entry : DirEntry) (p' : Player) : Prop :=
  exists now,
    p' = fst (fst (boot_stages (replace_py (entry_name entry)) entry now
                     (Player_new (entry_id entry)))).

(** The clients [cs'] are the clients [cs] and one player more for each of
    some of the names [entries], each built from its own name, in any
    order. *)
Definition boots_own_players (entries : list DirEntry)
    (cs cs' : list Player) : Prop :=
  exists (keep : DirEntry -> bool) (players : list Player),
    Forall2 built_from (filter keep entries) players
    /\ Permutation (cs ++ players) cs'.

(** The number of times [shutdown] was entered: its first statement, and
    no other, writes the log file. *)
Fixpoint shutdown_runs (evs : list Event) : nat :=
  match evs with
  | [] => 0%nat
  | WriteLogs :: rest => S (shutdown_runs rest)
  | _ :: rest => shutdown_runs rest
  end.



(** [verify_code] found a disallowed import or a file-open. *)
Definition violation (scan : list string * bool * bool) : Prop :=
  let '(imports, opening, _) := scan in imports <> [] \/ opening = true.

(** The diagnostic lines 85-91 leave for a violation. *)
Definition violation_diagnostic (scan : list string * bool * bool) : string :=
  let '(imports, opening, _) := scan in
  if opening
  then "Player is using " +++ dq +++ "open" +++ dq +++ " which is forbidden."
  else "Player has attempted illegal imports: " +++ py_repr imports.

(** The identity call of a client gives no value within the deadline, or
    raises. *)
Definition identity_fails (obj : UserClient) : Prop :=
  match team_name_attr obj with
  | NoTeamName _ => True
  | TeamName (Returns d _) => team_name_timeout < d
  | TeamName (Raises _ _) => True
  | TeamName Hangs => True
  end.

(** The error recorded for a failed identity call. *)
Definition identity_error (obj : UserClient) : string :=
  match team_name_attr obj with
  | NoTeamName _ =>
      "'NoneType' object has no attribute 'retrieve_value'" +++ nl +++ "None"
  | TeamName (Raises d msg) =>
      if d <=? team_name_timeout then msg
      else "Client failed to provide a team name in time."
  | TeamName _ => "Client failed to provide a team name in time."
  end.

(** ** A scripted controller and concrete runs *)

(** A controller that plays a script: it yields [script_keys] and reports
    the game over from tick [script_over_at] on. *)
Record ScriptedMC : Type := mkScripted {
  script_keys : list string;
  script_over_at : Z;
  script_over : bool
}.

#[export] Instance scripted_controller : Controller ScriptedMC := {
  game_loop_logic mc := script_keys mc;
  give_clients_objects mc _ _ := mc;
  interpret_current_turn_data mc _ _ _ := mc;
  client_turn_arguments _ client _ := [id client];
  turn_logic mc _ tick :=
    mkScripted (script_keys mc) (script_over_at mc)
               (script_over mc || (script_over_at mc <=? tick));
  create_turn_log _ _ _ := "{}";
  return_final_results _ _ _ := "{}";
  game_over mc := script_over mc
}.

(** A client object that gives [name] as its team name after 100
    microseconds and plays [turn] every tick. *)
Definition client_object (name : string)
    (turn : Behaviour (option (list Action))) : UserClient :=
  mkUserClient (TeamName (Returns 100 name)) (TakeTurn (fun _ => turn)).

(** A client file that passes validation. *)
Definition client_file (file pid name : string)
    (turn : Behaviour (option (list Action))) : DirEntry :=
  mkDirEntry file false pid ([], false, false)
             (Imported (client_object name turn)).

(** A client file with [import os], which validation rejects; the module
    itself loads. *)
Definition client_file_importing_os (file pid name : string)
    (turn : Behaviour (option (list Action))) : DirEntry :=
  mkDirEntry file false pid (["os"], false, false)
             (Imported (client_object name turn)).

Definition one_move : Behaviour (option (list Action)) :=
  Returns 100000 (Some ["move"]).

(** One to two clients, a budget of one second, [ticks] ticks. *)
Definition range_config (ticks : Z) : Config :=
  mkConfig "client" ticks 1000000 None (Some 1) (Some 2) None (Some 1) (Some 2).

(** Exactly one client, a budget of one second, one tick. *)
Definition single_config : Config :=
  mkConfig "client" 1 1000000 (Some 1) None None (Some 1) None None.

Definition directory (entries : list DirEntry) : Env :=
  mkEnv true true "{}" entries.

(** A script of [n] ticks whose game is over from tick [over_at] on. *)
Definition script (keys : list string) (over_at : Z) : ScriptedMC :=
  mkScripted keys over_at false.

(** Zed is rejected by validation, Abe plays [turn]. *)
Definition zed_rejected (turn : Behaviour (option (list Action))) : Env :=
  directory [client_file "abe_client.py" "player-abe" "Abe" turn;
             client_file_importing_os "zed_client.py" "player-zed" "Zed"
                                      one_move].

(** Zed never answers, Abe moves. *)
Definition zed_hangs : Env :=
  directory [client_file "abe_client.py" "player-abe" "Abe" one_move;
             client_file "zed_client.py" "player-zed" "Zed" Hangs].

(** Abe alone. *)
Definition abe_alone : Env :=
  directory [client_file "abe_client.py" "player-abe" "Abe" one_move].

(** Zed alone, rejected by validation. *)
Definition zed_alone_rejected : Env :=
  directory [client_file_importing_os "zed_client.py" "player-zed" "Zed"
                                      one_move].

(** A client whose [team_name] never answers. *)
Definition mute_client : UserClient :=
  mkUserClient (TeamName Hangs) (TakeTurn (fun _ => one_move)).

Definition mute_file : DirEntry :=
  mkDirEntry "mute_client.py" false "player-mute" ([], false, false)
             (Imported mute_client).

(** The stages of boot leave no call into the code of the client. *)
Definition never_executed (steps : list (Event * Player)) : Prop :=
  forall ev q,
    In (ev, q) steps ->
    match ev with
    | ImportModule _ => False
    | CallTeamName _ => False
    | _ => True
    end.

(** The engine after [load] and [boot]. *)
Definition after_boot (cfg : Config) (env : Env) (mc : ScriptedMC)
  : Engine ScriptedMC :=
  snd ((load env ;; boot cfg env) (Engine_new mc 0)).

(** The engine after one more [pre_tick] and [tick]. *)
Definition after_tick (cfg : Config) (e : Engine ScriptedMC)
  : Engine ScriptedMC :=
  snd ((pre_tick cfg ;; tick cfg) e).

(** ** Vocabulary of the further statements *)

(** The engine with [evs] added to its trace. *)
Definition logged {MC} (e : Engine MC) (evs : list Event) : Engine MC :=
  mkEngine (clients e) (master_controller e) (tick_number e) (world e)
           (current_world_key e) (clock e) (out e ++ evs).

(** What the controller is handed, when there is something to hand. *)
Definition who_of {MC} (cfg : Config) (e : Engine MC) : option ClientsArg :=
  if single_client cfg then
    match clients e with
    | [] => None
    | c :: _ => Some (One c)
    end
  else Some (All (clients e)).

(** [client.code.take_turn] of line 196 for [c]: the callable, or the
    message of the [AttributeError] the lookup raises. *)
Definition turn_lookup (c : Player)
  : string + (Args -> Behaviour (option (list Action))) :=
  match code c with
  | None => inl "'NoneType' object has no attribute 'take_turn'"
  | Some obj =>
      match take_turn obj with
      | NoTakeTurn msg => inl msg
      | TakeTurn f => inr f
      end
  end.

(** The call line 196 wraps in a thread for [c]. *)
Definition own_turn {MC} `{Controller MC} (mc : MC) (tick : Z) (c : Player)
  : Behaviour (option (list Action)) :=
  match turn_lookup c with
  | inr f => f (client_turn_arguments mc c tick)
  | inl _ => Hangs
  end.

(** A client that line 196 can handle: retired, or with a client object
    that has [take_turn]. *)
Definition runnable (c : Player) : bool :=
  negb (functional c) ||
  match turn_lookup c with
  | inr _ => true
  | inl _ => false
  end.

(** What lines 187-197 raise: the error of the lookup for the first
    client they cannot handle. *)
Definition first_lookup_error (cs : list Player) : option string :=
  match find (fun c => negb (runnable c)) cs with
  | Some c =>
      match turn_lookup c with
      | inl msg => Some msg
      | inr _ => None
      end
  | None => None
  end.

(** The names of [os.listdir] that get a player (lines 69-77). *)
Definition is_client_file (cfg : Config) (entry : DirEntry) : bool :=
  contains (upper (CLIENT_KEYWORD cfg)) (upper (replace_py (entry_name entry)))
  && negb (entry_isdir entry).

(** [a] may stand before [b] after the sort: both are named and the name
    of [a] is not the smaller one. *)
Definition descending (a b : Player) : Prop :=
  match team_name a, team_name b with
  | Some x, Some y => String.ltb x y = false
  | _, _ => False
  end.

(** Two keyed clients in the order the sort wants. *)
Definition keys_descend (a b : string * Player) : Prop :=
  String.ltb (fst a) (fst b) = false.

(** The last line [shutdown] prints. *)
Definition shutdown_message (source : option string) (cs : list Player)
  : string :=
  match source with
  | Some (String c s) =>
      nl +++ "Game has ended due to " +++ String c s +++ ": ["
      +++ (nl +++ error_output cs) +++ "]."
  | _ => nl +++ "Game has successfully ended."
  end.

(** The engine when the threads of a tick have been collected. *)
Definition collected {MC} (e : Engine MC) (cs : list Player)
    (evs : list Event) (now : Z) : Engine MC :=
  mkEngine cs (master_controller e) (tick_number e) (world e)
           (current_world_key e) now (out e ++ evs).

(** The engine when one more file of the client directory is done. *)
Definition registered {MC} (e : Engine MC) (player : Player)
    (evs : list Event) (now : Z) : Engine MC :=
  mkEngine (clients e ++ [player]) (master_controller e) (tick_number e)
           (world e) (current_world_key e) now (out e ++ evs).

(** The loop of lines 67-130 over the names [entries]. *)
Definition boot_loop {MC} (cfg : Config) (entries : list DirEntry)
    (e : Engine MC) : Engine MC :=
  snd (for_each (boot_entry cfg) entries e).

(** The engine with its clients replaced. *)
Definition with_clients {MC} (e : Engine MC) (cs : list Player) : Engine MC :=
  mkEngine cs (master_controller e) (tick_number e) (world e)
           (current_world_key e) (clock e) (out e).

(** A computation that exits the process with status 1 or not at all. *)
Definition halts_with_1 {MC A} (m : M MC A) : Prop :=
  forall e s, fst (m e) = Halt s -> s = 1.


(** The message of the exception [load] raises, if it raises. *)
Definition load_error (env : Env) : option string :=
  if negb (logs_dir_exists env) then Some "Log directory not found."
  else if negb (game_map_exists env) then Some "Game map not found."
  else None.

(** A computation that leaves the tick counter as it is. *)
Definition same_tick {MC A} (m : M MC A) : Prop :=
  forall e, tick_number (snd (m e)) = tick_number e.

(** Abe as boot leaves it. *)
Definition abe_player : Player :=
  mkPlayer "player-abe" (Some "abe_client") (Some "Abe") true None []
           (Some (client_object "Abe" one_move)).

(** Zed as boot leaves it when its file is clean. *)
Definition zed_player : Player :=
  mkPlayer "player-zed" (Some "zed_client") (Some "Zed") true None []
           (Some (client_object "Zed" Hangs)).

(** A budget of 0.3 s. *)
Definition short_config : Config :=
  mkConfig "client" 1 300000 None (Some 1) (Some 2) None (Some 1) (Some 2).






(** Lines 204-218 when the joins and the statements around them take
    time of their own: in each round of the loop the clock is read, the
    join is given what is left of the budget, and the next round begins
    [hd 0 late] microseconds after the join of the model would have
    returned (the time by which a join returns late, and the time of the
    statements up to the next reading of the clock).  With no lateness
    this is [join_all]. *)
Fixpoint join_all_late (cfg : Config) (start_time : Z)
    (threads : list TurnThread) (late : list Z) (now : Z) : Z :=
  match threads with
  | [] => now
  | thr :: rest =>
      let time_elapsed := microsecond now - microsecond start_time in
      let time_remaining := MAX_SECONDS_PER_TURN cfg - time_elapsed in
      let time_remaining := Z.max 0 time_remaining in
      join_all_late cfg start_time rest (tl late)
        (join thr time_remaining now + hd 0 late)
  end.

(** The lateness of all rounds together. *)
Definition total_late (late : list Z) : Z := fold_right Z.add 0 late.

(** The tick numbers of the turn logs written, in order. *)
Fixpoint turn_logs (evs : list Event) : list Z :=
  match evs with
  | [] => []
  | WriteTurnLog _ tick :: rest => tick :: turn_logs rest
  | _ :: rest => turn_logs rest
  end.

(** A controller whose game is never over. *)
#[export] Instance endless_controller : Controller unit := {
  game_loop_logic _ := ["1"; "2"; "3"];
  give_clients_objects mc _ _ := mc;
  interpret_current_turn_data mc _ _ _ := mc;
  client_turn_arguments _ client _ := [id client];
  turn_logic mc _ _ := mc;
  create_turn_log _ _ _ := "{}";
  return_final_results _ _ _ := "{}";
  game_over _ := false
}.

(** ** Properties *)

Section EngineFacts.

Context {MC : Type} `{Controller MC}.
Variable cfg : Config.
Variable env : Env.

(** *** The functional flag *)

Lemma no_revival_refl p : no_revival p p.
Proof. split; auto. Qed.

Lemma no_revival_trans p q r :
  no_revival p q -> no_revival q r -> no_revival p r.
Proof.
  intros [Hi Hf] [Hi' Hf']. split.
  - congruence.
  - auto.
Qed.

Lemma flags_only_fall_refl cs : flags_only_fall cs cs.
Proof. induction cs; constructor; auto using no_revival_refl. Qed.

Lemma flags_only_fall_trans cs cs' cs'' :
  flags_only_fall cs cs' -> flags_only_fall cs' cs'' ->
  flags_only_fall cs cs''.
Proof.
  intros H1. revert cs''. induction H1; intros cs'' H2.
  - inversion H2. constructor.
  - inversion H2; subst. constructor.
    + eapply no_revival_trans; eauto.
    + apply IHForall2. assumption.
Qed.

Lemma keeps_bind R A B (m : M MC A) (k : A -> M MC B) :
  (forall x y z, R x y -> R y z -> R x z) ->
  keeps R m -> (forall a, keeps R (k a)) -> keeps R (bind m k).
Proof.
  intros Htrans Hm Hk e. unfold bind.
  specialize (Hm e). destruct (m e) as [[a | x | s] e']; simpl in *; auto.
  eapply Htrans; [exact Hm | apply Hk].
Qed.

Lemma keeps_eq_weaken R A (m : M MC A) :
  (forall x, R x x) -> keeps eq m -> keeps R m.
Proof. intros Hrefl Hm e. rewrite <- (Hm e). apply Hrefl. Qed.

Lemma keeps_eq_bind A B (m : M MC A) (k : A -> M MC B) :
  keeps eq m -> (forall a, keeps eq (k a)) -> keeps eq (bind m k).
Proof. apply keeps_bind. intros; congruence. Qed.

Lemma keeps_eq_ret A (a : A) : keeps eq (ret (MC := MC) a).
Proof. intros e. reflexivity. Qed.

Lemma keeps_eq_raise A x : keeps eq (raise (MC := MC) (A := A) x).
Proof. intros e. reflexivity. Qed.

Lemma keeps_eq_os_exit A s : keeps eq (os_exit (MC := MC) (A := A) s).
Proof. intros e. reflexivity. Qed.

Lemma keeps_eq_get : keeps eq (get (MC := MC)).
Proof. intros e. reflexivity. Qed.

Lemma keeps_eq_emit ev : keeps eq (emit (MC := MC) ev).
Proof. intros e. reflexivity. Qed.

Lemma keeps_eq_emit_all evs : keeps eq (emit_all (MC := MC) evs).
Proof. intros e. reflexivity. Qed.

Lemma keeps_eq_set_master_controller mc :
  keeps eq (set_master_controller (MC := MC) mc).
Proof. intros e. reflexivity. Qed.

Lemma keeps_eq_set_tick_number n : keeps eq (set_tick_number (MC := MC) n).
Proof. intros e. reflexivity. Qed.

Lemma keeps_eq_set_world w : keeps eq (set_world (MC := MC) w).
Proof. intros e. reflexivity. Qed.

Lemma keeps_eq_set_current_world_key k :
  keeps eq (set_current_world_key (MC := MC) k).
Proof. intros e. reflexivity. Qed.

Lemma keeps_eq_set_clock t : keeps eq (set_clock (MC := MC) t).
Proof. intros e. reflexivity. Qed.

(** Peels the binds of a computation that never assigns [self.clients]. *)
Ltac keeps_eq_step :=
  first
    [ apply keeps_eq_ret | apply keeps_eq_raise | apply keeps_eq_os_exit
    | apply keeps_eq_get | apply keeps_eq_emit | apply keeps_eq_emit_all
    | apply keeps_eq_set_master_controller | apply keeps_eq_set_tick_number
    | apply keeps_eq_set_world | apply keeps_eq_set_current_world_key
    | apply keeps_eq_set_clock
    | apply keeps_eq_bind; [| intro] ].

Lemma keeps_eq_clients_arg : keeps eq (clients_arg (MC := MC) cfg).
Proof.
  unfold clients_arg. keeps_eq_step; [keeps_eq_step |].
  destruct (single_client cfg); [destruct (clients a) |]; keeps_eq_step.
Qed.

Lemma keeps_eq_shutdown source : keeps eq (shutdown cfg source).
Proof.
  unfold shutdown.
  repeat (keeps_eq_step; [first [apply keeps_eq_clients_arg | keeps_eq_step] |]).
  destruct source as [[| c s] |]; repeat keeps_eq_step.
Qed.

Lemma keeps_eq_load : keeps eq (load (MC := MC) env).
Proof.
  unfold load.
  destruct (negb (logs_dir_exists env)); [keeps_eq_step |].
  destruct (negb (game_map_exists env)); repeat keeps_eq_step.
Qed.

Lemma keeps_eq_pre_tick : keeps eq (pre_tick cfg).
Proof.
  unfold pre_tick.
  repeat (keeps_eq_step; [first [apply keeps_eq_clients_arg | keeps_eq_step] |]).
  keeps_eq_step.
Qed.

Lemma keeps_eq_post_tick : keeps eq (post_tick cfg).
Proof.
  unfold post_tick.
  repeat (keeps_eq_step; [first [apply keeps_eq_clients_arg | keeps_eq_step] |]).
  destruct (game_over _); [apply keeps_eq_shutdown | keeps_eq_step].
Qed.

(** Every write of lines 223-234 leaves the flag as it is or clears it. *)
Lemma collect_one_no_revival now client thr :
  no_revival client (fst (collect_one now client thr)).
Proof.
  unfold collect_one, no_revival.
  destruct (is_alive thr now); destruct (thread_error thr now);
    simpl; split; auto; discriminate.
Qed.

Lemma collect_flags_only_fall now cs threads :
  flags_only_fall cs (fst (collect now cs threads)).
Proof.
  revert threads. induction cs as [| client cs IH]; intros threads.
  - destruct threads; constructor.
  - destruct threads as [| thr threads]; simpl.
    + apply flags_only_fall_refl.
    + pose proof (collect_one_no_revival now client thr) as H1.
      specialize (IH threads).
      destruct (collect_one now client thr) as [c ev].
      destruct (collect now cs threads) as [rest evs].
      simpl in *. constructor; assumption.
Qed.

Lemma keeps_fall_tick : keeps flags_only_fall (tick cfg).
Proof.
  intros e. unfold tick. unfold bind at 1. unfold get at 1. cbv beta iota.
  destruct (build_threads _ _ _) as [x | funcs].
  - apply flags_only_fall_refl.
  - unfold run_turns.
    pose proof (collect_flags_only_fall
                  (join_all cfg (clock e)
                     (map (fun f => start f (clock e)) funcs) (clock e))
                  (clients e)
                  (map (fun f => start f (clock e)) funcs)) as Hc.
    destruct (collect _ _ _) as [cs evs]. simpl in Hc.
    unfold bind at 1. unfold set_clock at 1. cbv beta iota.
    unfold bind at 1. unfold set_clients at 1. cbv beta iota.
    match goal with
    | |- flags_only_fall _ (clients (snd (?m ?e1))) =>
        assert (Hk : keeps eq m); [| rewrite <- (Hk e1); exact Hc]
    end.
    repeat (keeps_eq_step;
            [first [apply keeps_eq_clients_arg | keeps_eq_step] |]).
    keeps_eq_step.
    + destruct (verify_num_clients _ _ _ _);
        [apply keeps_eq_shutdown | keeps_eq_step].
    + repeat (keeps_eq_step;
              [first [apply keeps_eq_clients_arg | keeps_eq_step] |]).
      keeps_eq_step.
Qed.

Lemma keeps_fall_of_eq A (m : M MC A) : keeps eq m -> keeps flags_only_fall m.
Proof. apply keeps_eq_weaken. apply flags_only_fall_refl. Qed.

Lemma keeps_fall_bind A B (m : M MC A) (k : A -> M MC B) :
  keeps flags_only_fall m -> (forall a, keeps flags_only_fall (k a)) ->
  keeps flags_only_fall (bind m k).
Proof. apply keeps_bind. apply flags_only_fall_trans. Qed.

Lemma keeps_fall_run_ticks keys : keeps flags_only_fall (run_ticks cfg keys).
Proof.
  induction keys as [| key rest IH]; simpl.
  - apply keeps_fall_of_eq, keeps_eq_ret.
  - apply keeps_fall_bind;
      [apply keeps_fall_of_eq, keeps_eq_set_current_world_key | intros _].
    apply keeps_fall_bind; [apply keeps_fall_of_eq, keeps_eq_pre_tick | intros _].
    apply keeps_fall_bind; [apply keeps_fall_tick | intros _].
    apply keeps_fall_bind; [apply keeps_fall_of_eq, keeps_eq_post_tick | intros _].
    apply keeps_fall_bind; [apply keeps_fall_of_eq, keeps_eq_get | intros e].
    destruct (MAX_TICKS cfg <=? tick_number e); [| exact IH].
    apply keeps_fall_of_eq, keeps_eq_ret.
Qed.

(** *** boot *)

Lemma verify_marks_no_revival scan p : no_revival p (verify_marks scan p).
Proof.
  destruct scan as [[imports opening] printing]. unfold verify_marks, no_revival.
  destruct (List.length imports =? 0)%nat; destruct opening;
    simpl; split; auto; discriminate.
Qed.

Lemma handshake_no_revival filename obj now p :
  no_revival p (fst (fst (handshake filename obj now p))).
Proof.
  unfold handshake, no_revival.
  destruct (team_name_attr obj) as [msg | f]; simpl.
  - split; auto; discriminate.
  - destruct (is_alive _ _); destruct (thread_error _ _);
      simpl; split; auto; discriminate.
Qed.

(** Lines 83-126 never set the flag. *)
Lemma boot_stages_no_revival filename entry now p :
  no_revival p (fst (fst (boot_stages filename entry now p))).
Proof.
  unfold boot_stages.
  pose proof (verify_marks_no_revival (entry_verify_code entry) p) as Hv.
  destruct (entry_import entry) as [obj | traceback].
  - pose proof (handshake_no_revival filename obj now
                  (set_code (Some obj) (verify_marks (entry_verify_code entry) p)))
      as Hh.
    destruct (handshake _ _ _ _) as [[p2 evs] now']. simpl in *.
    eapply no_revival_trans; [exact Hv |].
    destruct Hh as [Hi Hf]. split; auto.
  - simpl. destruct Hv as [Hi Hf]. split; auto. discriminate.
Qed.

Lemma sort_keys_snd cs l : sort_keys cs = Some l -> map snd l = cs.
Proof.
  revert l. induction cs as [| c cs IH]; simpl; intros l Hl.
  - inversion Hl. reflexivity.
  - destruct (team_name c) as [k |]; [| discriminate].
    destruct (sort_keys cs) as [l' |]; [| discriminate].
    inversion Hl. simpl. f_equal. apply IH. reflexivity.
Qed.

(** *** The joins *)

Lemma microsecond_whole_seconds now k :
  microsecond (now + k * 1000000) = microsecond now.
Proof. unfold microsecond. apply Z_mod_plus_full. Qed.

(** With a budget of whole seconds every join of a thread that never
    answers starts from a full budget again. *)
Lemma join_all_hanging k t0 n now :
  0 <= k -> MAX_SECONDS_PER_TURN cfg = k * 1000000 ->
  microsecond now = microsecond t0 ->
  join_all cfg t0 (repeat (start Hangs t0) n) now
  = now + Z.of_nat n * MAX_SECONDS_PER_TURN cfg.
Proof.
  intros Hk Hmax. revert now. induction n as [| n IH]; intros now Hnow.
  - simpl. lia.
  - cbn [repeat join_all]. rewrite Hnow, Z.sub_diag, Z.sub_0_r.
    rewrite Z.max_r by lia.
    unfold join at 1. cbn [finished start func].
    rewrite IH.
    + lia.
    + rewrite Hmax, microsecond_whole_seconds. exact Hnow.
Qed.

(** *** The turn threads *)

(** Lines 189-190: a client that is not functional gets no thread. *)
Lemma build_threads_skips mc tick before p after :
  functional p = false ->
  build_threads mc tick (before ++ p :: after)
  = build_threads mc tick (before ++ after).
Proof.
  intros Hp. induction before as [| c before IH]; simpl.
  - rewrite Hp. reflexivity.
  - rewrite IH. reflexivity.
Qed.

(** The turn of a client, as line 196 builds it. *)
Lemma build_threads_all_functional mc tick cs :
  Forall (fun c => functional c = true /\ runnable c = true) cs ->
  build_threads mc tick cs = inr (map (own_turn mc tick) cs).
Proof.
  induction 1 as [| c cs [Hf Hc] _ IH]; simpl; [reflexivity |].
  unfold runnable in Hc. rewrite Hf in Hc. cbn [negb orb] in Hc.
  rewrite Hf, IH. simpl. unfold own_turn. unfold turn_lookup in *.
  destruct (code c) as [obj |]; [| discriminate].
  destruct (take_turn obj); [discriminate | reflexivity].
Qed.

(** *** Validation *)

Lemma verify_marks_violation scan p :
  violation scan ->
  functional (verify_marks scan p) = false
  /\ error (verify_marks scan p) = Some (violation_diagnostic scan).
Proof.
  destruct scan as [[imports opening] printing]. simpl.
  intros [Himp | Hop].
  - destruct imports as [| i imports]; [congruence |].
    destruct opening; simpl; auto.
  - subst opening. destruct (List.length imports =? 0)%nat; simpl; auto.
Qed.

Lemma verify_marks_team_name scan p :
  team_name (verify_marks scan p) = team_name p.
Proof.
  destruct scan as [[imports opening] printing]. simpl.
  destruct (List.length imports =? 0)%nat; destruct opening; reflexivity.
Qed.

(** C8, amended.  A client whose source has a disallowed import or a
    file-open is marked non-functional, with the diagnostic of the
    violation, before its module is imported: whenever the module is
    imported and instantiated, or its team name asked for, the player
    already carries the mark.  The module is imported all the same.  The
    client is non-functional when the stages end, and as long as its flag
    is not set again [tick] builds no thread for it. *)
Theorem C8_marked_before_import_and_never_given_a_turn :
  forall (filename : string) (entry : DirEntry) (now : Z) (p : Player),
    violation (entry_verify_code entry) ->
    let r := boot_stages filename entry now p in
    (forall q,
        In (ImportModule filename, q) (snd (fst r))
        \/ In (CallTeamName filename, q) (snd (fst r)) ->
        functional q = false
        /\ error q = Some (violation_diagnostic (entry_verify_code entry)))
    /\ (exists q, In (ImportModule filename, q) (snd (fst r)))
    /\ functional (fst (fst r)) = false
    /\ (forall (mc : MC) tick before later after,
          no_revival (fst (fst r)) later ->
          build_threads mc tick (before ++ later :: after)
          = build_threads mc tick (before ++ after)).
Proof.
  intros filename entry now p Hv r.
  destruct (verify_marks_violation _ p Hv) as [Hf He].
  assert (Hdown : functional (fst (fst r)) = false).
  { subst r. unfold boot_stages.
    destruct (entry_import entry) as [obj | traceback]; [| reflexivity].
    pose proof (handshake_no_revival filename obj now
                  (set_code (Some obj)
                     (verify_marks (entry_verify_code entry) p))) as [_ Hh].
    destruct (handshake _ _ _ _) as [[p2 evs] now']. simpl in *.
    destruct (functional p2); [| reflexivity].
    rewrite <- Hf. symmetry. apply Hh. reflexivity. }
  split; [| split; [| split]].
  - subst r. unfold boot_stages.
    destruct (entry_import entry) as [obj | traceback].
    + unfold handshake.
      destruct (team_name_attr obj) as [msg | f]; simpl; intros q Hq;
        repeat match goal with
               | Hd : _ \/ _ |- _ => destruct Hd as [Hd | Hd]
               | Hd : False |- _ => destruct Hd
               end;
        inversion Hq; subst; simpl; auto.
    + simpl. intros q Hq.
      repeat match goal with
             | Hd : _ \/ _ |- _ => destruct Hd as [Hd | Hd]
             | Hd : False |- _ => destruct Hd
             end;
        inversion Hq; subst; auto.
  - subst r. unfold boot_stages.
    destruct (entry_import entry) as [obj | traceback].
    + destruct (handshake _ _ _ _) as [[p2 evs] now']. simpl.
      eexists. right. left. reflexivity.
    + simpl. eexists. right. left. reflexivity.
  - exact Hdown.
  - intros mc tick before later after [_ Hlater].
    apply build_threads_skips.
    destruct (functional later); [| reflexivity].
    rewrite <- Hdown. symmetry. apply Hlater. reflexivity.
Qed.

(** *** The identity call *)

(** A call that is over [d] microseconds after its start, seen when the
    join with [timeout] returns: over if [d <= timeout], else alive. *)
Lemma finished_after_join R (f : Behaviour R) d timeout now :
  0 <= timeout ->
  (exists r, f = Returns d r) \/ (exists msg, f = Raises d msg) ->
  finished (start f now) (join (start f now) timeout now)
  = (d <=? timeout).
Proof.
  intros Ht Hf.
  assert (Hfin : forall t, finished (start f now) t = (now + d <=? t)).
  { intros t. destruct Hf as [[r Hf] | [msg Hf]]; subst f; reflexivity. }
  assert (Hjoin : join (start f now) timeout now
                  = if now + d <=? now then now
                    else Z.min (now + d) (now + timeout)).
  { unfold join. rewrite Hfin.
    destruct Hf as [[r Hf] | [msg Hf]]; subst f; reflexivity. }
  rewrite Hfin, Hjoin.
  destruct (Z.leb_spec (now + d) now); destruct (Z.leb_spec d timeout);
    try (apply Z.leb_le; lia); apply Z.leb_gt; lia.
Qed.

Lemma team_name_timeout_nonneg : 0 <= team_name_timeout.
Proof. unfold team_name_timeout. lia. Qed.

(** C9.  A client whose identity call gives no value within the deadline,
    or raises, leaves lines 83-126 non-functional, with the timeout message
    or the captured error, and without a team name. *)
Theorem C9_failed_identity_call_retires_without_name :
  forall (filename : string) (entry : DirEntry) (obj : UserClient)
         (now : Z) (pid : string),
    entry_import entry = Imported obj ->
    identity_fails obj ->
    let p' := fst (fst (boot_stages filename entry now (Player_new pid))) in
    functional p' = false
    /\ error p' = Some (identity_error obj)
    /\ team_name p' = None.
Proof.
  intros filename entry obj now pid Himp Hfail.
  unfold boot_stages. rewrite Himp.
  unfold handshake, identity_fails, identity_error in *.
  destruct (team_name_attr obj) as [msg | f].
  - simpl. repeat split. apply verify_marks_team_name.
  - unfold is_alive, thread_error, retrieve_value.
    destruct f as [d r | d msg |].
    + rewrite (finished_after_join _ (Returns d r) d)
        by (eauto using team_name_timeout_nonneg).
      cbn [start func].
      destruct (Z.leb_spec d team_name_timeout); [lia |].
      simpl. repeat split.
    + rewrite (finished_after_join _ (Raises d msg) d)
        by (eauto using team_name_timeout_nonneg).
      cbn [start func].
      destruct (d <=? team_name_timeout); simpl; repeat split.
    + simpl. repeat split.
Qed.

(** *** shutdown *)

(** The fatal shutdown, when the controller can be given its clients:
    both files are written, the second with the reason, the errors of the
    clients are printed, the output is flushed and the process exits with
    status 1. *)
Lemma shutdown_fatal_completes (e : Engine MC) c s who :
  fst (clients_arg cfg
         (mkEngine (clients e) (master_controller e) (tick_number e)
                   (world e) (current_world_key e) (clock e)
                   (out e ++ [WriteLogs]))) = Ret who ->
  shutdown cfg (Some (String c s)) e
  = (Halt 1,
     mkEngine (clients e) (master_controller e) (tick_number e)
              (world e) (current_world_key e) (clock e)
              (out e ++ [WriteLogs]
               ++ [WriteResults
                     (return_final_results (master_controller e) who
                        (tick_number e))
                     (Some (String c s))]
               ++ [Print (nl +++ "Game has ended due to " +++ String c s
                          +++ ": [" +++ (nl +++ error_output (clients e))
                          +++ "].")]
               ++ [Flush])).
Proof.
  unfold shutdown, clients_arg, bind, emit, get, os_exit, ret, raise. simpl.
  destruct (single_client cfg).
  - destruct (clients e) as [| c0 rest]; simpl; [discriminate |].
    intros Hw. inversion Hw. subst who.
    rewrite <- !app_assoc. reflexivity.
  - simpl. intros Hw. inversion Hw. subst who.
    rewrite <- !app_assoc. reflexivity.
Qed.

(** C10.  In the single-client setting [shutdown] reads the first client
    to build the results, so with no client at all it raises after the
    log file is written: no results are written and the process does not
    exit. *)
Theorem C10_shutdown_raises_without_clients :
  forall (source : option string) (e : Engine MC),
    single_client cfg = true ->
    clients e = [] ->
    shutdown cfg source e
    = (Exc "list index out of range",
       mkEngine [] (master_controller e) (tick_number e) (world e)
                (current_world_key e) (clock e) (out e ++ [WriteLogs])).
Proof.
  intros source e Hsingle Hnone.
  unfold shutdown, clients_arg, bind, emit, get, raise. simpl.
  rewrite Hsingle, Hnone. reflexivity.
Qed.

(** *** The result collection when the lists line up *)

(** A thread that is still alive leaves its partner retired, with the
    time-out message under the partner's name and no actions. *)
Lemma collect_one_timeout now client thr :
  is_alive thr now = true ->
  let c := fst (collect_one now client thr) in
  functional c = false
  /\ actions c = []
  /\ error c = Some (id client
                     +++ " failed to reply in time and has been dropped.").
Proof.
  intros Halive. unfold collect_one, thread_error, result.
  unfold is_alive in *. rewrite Halive.
  apply negb_true_iff in Halive. rewrite Halive.
  destruct (func thr); simpl; auto.
Qed.

(** A thread that raised leaves its partner retired with the error. *)
Lemma collect_one_error now client thr msg :
  thread_error thr now = Some msg ->
  let c := fst (collect_one now client thr) in
  functional c = false /\ actions c = [] /\ error c = Some msg.
Proof.
  intros Herr. unfold collect_one, result. rewrite Herr.
  unfold thread_error in Herr.
  destruct (func thr); try discriminate.
  destruct (is_alive thr now); simpl; auto.
Qed.

(** A thread that returned in time leaves its partner with its actions,
    and otherwise as it was. *)
Lemma collect_one_completed now client thr d r :
  func thr = Returns d r -> finished thr now = true ->
  fst (collect_one now client thr)
  = set_actions (match r with Some a => a | None => [] end) client.
Proof.
  intros Hf Hfin. unfold collect_one, result, thread_error, is_alive.
  rewrite Hf, Hfin. reflexivity.
Qed.

(** With as many threads as clients the zip pairs every client with the
    thread at its own position. *)
Lemma collect_aligned now cs threads :
  List.length threads = List.length cs ->
  fst (collect now cs threads)
  = map (fun ct => fst (collect_one now (fst ct) (snd ct)))
        (combine cs threads).
Proof.
  revert threads. induction cs as [| c cs IH]; intros [| thr threads] Hlen;
    simpl in *; try discriminate; try reflexivity.
  specialize (IH threads ltac:(congruence)).
  destruct (collect_one now c thr) as [c' ev].
  destruct (collect now cs threads) as [rest evs].
  simpl in *. rewrite IH. reflexivity.
Qed.

(** *** How often shutdown runs *)























End EngineFacts.

(** ** Concrete runs *)

(** The file name filters and the sort, on examples. *)
Example replace_py_example : replace_py "my_client.py" = "my_client".
Proof. reflexivity. Qed.

Example keyword_filter_example :
  contains (upper "client") (upper "My_Client_2") = true
  /\ contains (upper "client") (upper "readme") = false.
Proof. split; reflexivity. Qed.

Example sort_clients_example :
  let named n t := set_team_name (Some t) (Player_new n) in
  option_map (map id)
    (sort_clients [named "1" "Abe"; named "2" "Zed"; named "3" "Abe";
                   named "4" "Moe"])
  = Some ["2"; "4"; "1"; "3"]
  /\ sort_clients [named "1" "Abe"; Player_new "2"] = None
  /\ option_map (map id) (sort_clients [Player_new "2"]) = Some ["2"].
Proof. repeat split. Qed.

(** C1.  The collection phase is not bounded by the budget: with a budget
    of one second, [n] clients that never answer keep the engine in the
    joins for [n] seconds, whenever the batch is launched; and a batch of
    two clients, one answering after 0.1 s and one after 2 s, is collected
    in 1 s when launched on a whole second but in 2 s when launched 0.95 s
    after one. *)
Theorem C1_collection_time_grows_with_the_clients :
  (forall (t0 : Z) (n : nat),
      join_all (range_config 1) t0 (repeat (start Hangs t0) n) t0
      = t0 + Z.of_nat n * 1000000)
  /\ join_all (range_config 1) 0
       [start one_move 0; start (Returns 2000000 (Some ["move"])) 0] 0
     = 0 + 1000000
  /\ join_all (range_config 1) 950000
       [start one_move 950000;
        start (Returns 2000000 (Some ["move"])) 950000] 950000
     = 950000 + 2000000.
Proof.
  split; [| split; reflexivity].
  intros t0 n.
  apply (join_all_hanging (range_config 1) 1 t0 n t0); [lia | | ]; reflexivity.
Qed.

(** C2.  Zed was retired at boot and comes first in the client order; Abe
    is the only client with a thread, and its move is recorded on Zed
    while Abe keeps an empty action list. *)
Theorem C2_result_recorded_on_another_client :
  let cfg := range_config 1 in
  let before := after_boot cfg (zed_rejected one_move) (script ["1"] 100) in
  let after := after_tick cfg before in
  map id (clients before) = ["player-zed"; "player-abe"]
  /\ map functional (clients before) = [false; true]
  /\ map actions (clients before) = [[]; []]
  /\ build_threads (master_controller before) 1 (clients before)
     = inr [one_move]
  /\ map id (clients after) = ["player-zed"; "player-abe"]
  /\ map actions (clients after) = [["move"]; []].
Proof. vm_compute. repeat split. Qed.

(** C3.  Zed stops answering in the first tick and is retired with no
    actions; in the second tick no thread is built for Zed, and yet Zed
    ends that tick with the move of Abe as its actions. *)
Theorem C3_skipped_client_ends_the_tick_with_actions :
  let cfg := range_config 2 in
  let e0 := after_boot cfg zed_hangs (script ["1"; "2"] 100) in
  let e1 := snd (post_tick cfg (after_tick cfg e0)) in
  let e2 := after_tick cfg e1 in
  map id (clients e1) = ["player-zed"; "player-abe"]
  /\ map functional (clients e1) = [false; true]
  /\ map actions (clients e1) = [[]; ["move"]]
  /\ build_threads (master_controller e1) 2 (clients e1) = inr [one_move]
  /\ tick_number e2 = 2
  /\ map functional (clients e2) = [false; true]
  /\ map actions (clients e2) = [["move"]; ["move"]].
Proof. vm_compute. repeat split. Qed.

(** C5.  When the controller reports the game over, [post_tick] runs
    [shutdown], which returns, and the [finally] of [loop] runs it again:
    twice with one tick to play, and once per remaining tick plus once
    with three ticks to play, the loop going on after the game is over. *)
Theorem C5_shutdown_runs_again_after_game_over :
  let run1 := loop (range_config 1) abe_alone (Engine_new (script ["1"] 1) 0) in
  let run3 := loop (range_config 3) abe_alone
                   (Engine_new (script ["1"; "2"; "3"] 1) 0) in
  fst run1 = Ret tt
  /\ out (snd run1)
     = [RemoveOldLogs; VerifyCode "abe_client.py"; ImportModule "abe_client";
        CallTeamName "abe_client"; WriteTurnLog "{}" 1;
        WriteLogs; WriteResults "{}" None;
        Print (nl +++ "Game has successfully ended."); Flush;
        WriteLogs; WriteResults "{}" None;
        Print (nl +++ "Game has successfully ended."); Flush]
  /\ shutdown_runs (out (snd run1)) = 2%nat
  /\ fst run3 = Ret tt
  /\ tick_number (snd run3) = 3
  /\ shutdown_runs (out (snd run3)) = 4%nat.
Proof. vm_compute. repeat split. Qed.

(** On the other paths [shutdown] runs once: the tick limit, a client
    count that is wrong at boot, an exception of [load]. *)
Example shutdown_runs_once_on_the_other_paths :
  shutdown_runs
    (out (snd (loop (range_config 1) abe_alone
                    (Engine_new (script ["1"] 100) 0)))) = 1%nat
  /\ shutdown_runs
       (out (snd (loop single_config zed_alone_rejected
                       (Engine_new (script ["1"] 100) 0)))) = 1%nat
  /\ shutdown_runs
       (out (snd (loop (range_config 1) (mkEnv false true "{}" [])
                       (Engine_new (script ["1"] 100) 0)))) = 1%nat.
Proof. vm_compute. repeat split. Qed.

(** C6.  One client is required and the client directory has no client
    file: [boot] calls the fatal shutdown, which raises while it reads the
    first client; [loop] prints the exception, its [finally] runs
    [shutdown] again, which raises again.  No results are written and the
    process does not exit through [os._exit(1)]. *)
Theorem C6_fatal_shutdown_raises_in_an_empty_directory :
  let e := Engine_new (script ["1"] 100) 0 in
  let run := loop single_config (directory []) e in
  verify_num_clients (filter functional (clients e))
    (SET_NUMBER_OF_CLIENTS_START single_config)
    (MIN_CLIENTS_START single_config) (MAX_CLIENTS_START single_config)
  = Some "Number of clients is not the set value."
  /\ fst (boot single_config (directory []) e)
     = Exc "list index out of range"
  /\ fst run = Exc "list index out of range"
  /\ out (snd run)
     = [RemoveOldLogs; WriteLogs;
        Print "Exception raised during runtime: list index out of range";
        Print "None"; WriteLogs].
Proof. vm_compute. repeat split. Qed.

(** With a client on the list the fatal shutdown of boot does all it
    should. *)
Example fatal_shutdown_with_a_rejected_client :
  let run := loop single_config zed_alone_rejected
                  (Engine_new (script ["1"] 100) 0) in
  fst run = Halt 1
  /\ out (snd run)
     = [RemoveOldLogs; VerifyCode "zed_client.py"; ImportModule "zed_client";
        CallTeamName "zed_client"; WriteLogs;
        WriteResults "{}" (Some "Client_error");
        Print (nl +++ "Game has ended due to Client_error: [" +++ nl
               +++ "Player has attempted illegal imports: ['os']" +++ nl
               +++ "].");
        Flush].
Proof. vm_compute. repeat split. Qed.

(** C7.  Zed was retired at boot and comes first; Abe never answers.
    After the tick the time-out message names Zed, and Abe, whose turn is
    still running, is functional and has no error. *)
Theorem C7_timeout_recorded_on_another_client :
  let cfg := range_config 1 in
  let before := after_boot cfg (zed_rejected Hangs) (script ["1"] 100) in
  let after := after_tick cfg before in
  map id (clients before) = ["player-zed"; "player-abe"]
  /\ map functional (clients before) = [false; true]
  /\ build_threads (master_controller before) 1 (clients before)
     = inr [Hangs]
  /\ map functional (clients after) = [false; true]
  /\ map error (clients after)
     = [Some "player-zed failed to reply in time and has been dropped.";
        None].
Proof. vm_compute. repeat split. Qed.

(** C8 as stated fails: the file of Zed has [import os], and boot still
    imports and instantiates the module and asks it for its team name. *)
Lemma C8_rejected_client_is_still_loaded :
  let entry :=
    client_file_importing_os "zed_client.py" "player-zed" "Zed" one_move in
  let steps :=
    snd (fst (boot_stages "zed_client" entry 0 (Player_new "player-zed"))) in
  violation (entry_verify_code entry)
  /\ map fst steps
     = [VerifyCode "zed_client.py"; ImportModule "zed_client";
        CallTeamName "zed_client"]
  /\ ~ never_executed steps.
Proof.
  split; [left; discriminate |]. split; [reflexivity |].
  intros Hnever.
  exact (Hnever (ImportModule "zed_client") _ (or_intror (or_introl eq_refl))).
Qed.

Lemma C8_witness :
  let entry :=
    client_file_importing_os "zed_client.py" "player-zed" "Zed" one_move in
  violation (entry_verify_code entry)
  /\ functional
       (fst (fst (boot_stages "zed_client" entry 0 (Player_new "player-zed"))))
     = false.
Proof.
  split; [left; discriminate |].
  apply (C8_marked_before_import_and_never_given_a_turn (MC := ScriptedMC)
           "zed_client"
           (client_file_importing_os "zed_client.py" "player-zed" "Zed"
                                     one_move)
           0 (Player_new "player-zed")).
  left. discriminate.
Defined.

Lemma C9_witness :
  entry_import mute_file = Imported mute_client
  /\ identity_fails mute_client
  /\ (let p' := fst (fst (boot_stages "mute_client" mute_file 0
                            (Player_new "player-mute"))) in
      functional p' = false
      /\ error p' = Some "Client failed to provide a team name in time."
      /\ team_name p' = None).
Proof.
  split; [reflexivity |]. split; [exact I |].
  exact (C9_failed_identity_call_retires_without_name
           "mute_client" mute_file mute_client 0 "player-mute" eq_refl I).
Defined.

Lemma C10_witness :
  single_client single_config = true
  /\ clients (Engine_new (script ["1"] 100) 0) = []
  /\ shutdown single_config (Some "Client_error")
       (Engine_new (script ["1"] 100) 0)
     = (Exc "list index out of range",
        mkEngine [] (script ["1"] 100) 0 None None 0 [WriteLogs]).
Proof.
  split; [reflexivity |]. split; [reflexivity |].
  exact (C10_shutdown_raises_without_clients single_config
           (Some "Client_error") (Engine_new (script ["1"] 100) 0)
           eq_refl eq_refl).
Defined.

(** ** Further properties of the engine *)

Section EngineMore.

Context {MC : Type} `{Controller MC}.
Variable cfg : Config.
Variable env : Env.

(** *** The threads of a tick *)

Lemma build_threads_lookup :
  forall (mc : MC) (tick : Z) (cs : list Player),
    build_threads mc tick cs
    = match first_lookup_error cs with
      | Some msg => inl msg
      | None => inr (map (own_turn mc tick) (filter functional cs))
      end.
Proof.
  intros mc tick cs. unfold first_lookup_error.
  induction cs as [| c cs IH]; [reflexivity |].
  cbn [build_threads find filter]. unfold runnable at 1.
  destruct (functional c); cbn [negb orb].
  - cbn [map]. unfold own_turn at 1.
    destruct (code c) as [obj |] eqn:Hcode.
    + destruct (take_turn obj) as [msg | f] eqn:Hturn.
      * assert (Hl : turn_lookup c = inl msg)
          by (unfold turn_lookup; rewrite Hcode, Hturn; reflexivity).
        rewrite !Hl. cbn [negb]. rewrite ?Hl. reflexivity.
      * assert (Hl : turn_lookup c = inr f)
          by (unfold turn_lookup; rewrite Hcode, Hturn; reflexivity).
        rewrite !Hl. cbn [negb]. rewrite IH.
        destruct (find (fun c0 => negb (runnable c0)) cs) as [c' |];
          [| reflexivity].
        destruct (turn_lookup c'); reflexivity.
    + assert (Hl : turn_lookup c
                   = inl "'NoneType' object has no attribute 'take_turn'")
        by (unfold turn_lookup; rewrite Hcode; reflexivity).
      rewrite !Hl. cbn [negb]. rewrite ?Hl. reflexivity.
  - exact IH.
Qed.

Lemma first_lookup_error_runnable :
  forall cs : list Player,
    first_lookup_error cs = None <-> forallb runnable cs = true.
Proof.
  intros cs. unfold first_lookup_error.
  induction cs as [| c cs IH]; [split; reflexivity |].
  cbn [find forallb].
  destruct (runnable c) eqn:Hrun; cbn [negb andb]; [exact IH |].
  unfold runnable in Hrun.
  destruct (turn_lookup c) as [msg | f].
  - split; discriminate.
  - rewrite orb_true_r in Hrun. discriminate.
Qed.

Lemma build_threads_filter :
  forall (mc : MC) (tick : Z) (cs : list Player),
    forallb runnable cs = true ->
    build_threads mc tick cs
    = inr (map (own_turn mc tick) (filter functional cs)).
Proof.
  intros mc tick cs Hrun. rewrite build_threads_lookup.
  apply first_lookup_error_runnable in Hrun. rewrite Hrun. reflexivity.
Qed.

(** X3.  Lines 186-197 build one thread for every functional client, in
    client order, and none for the others.  They raise exactly when the
    lookup [client.code.take_turn] fails for a functional client, because
    it has no client object or because its object has no [take_turn], and
    then with the error of the first such client. *)
Theorem build_threads_one_per_functional_client :
  forall (mc : MC) (tick : Z) (cs : list Player),
    build_threads mc tick cs
    = match first_lookup_error cs with
      | Some msg => inl msg
      | None => inr (map (own_turn mc tick) (filter functional cs))
      end
    /\ (first_lookup_error cs = None <-> forallb runnable cs = true).
Proof.
  intros mc tick cs. split.
  - apply build_threads_lookup.
  - apply first_lookup_error_runnable.
Qed.

Lemma collect_zip :
  forall (now : Z) (cs : list Player) (threads : list TurnThread),
    fst (collect now cs threads)
    = map (fun ct => fst (collect_one now (fst ct) (snd ct)))
          (combine cs threads)
      ++ skipn (List.length threads) cs
    /\ snd (collect now cs threads)
       = flat_map (fun ct => snd (collect_one now (fst ct) (snd ct)))
                  (combine cs threads).
Proof.
  intros now cs. induction cs as [| c cs IH]; intros threads.
  - destruct threads; split; reflexivity.
  - destruct threads as [| thr threads]; [split; reflexivity |].
    destruct (IH threads) as [IH1 IH2].
    cbn [collect combine map flat_map List.length skipn fst snd].
    destruct (collect_one now c thr) as [c' ev].
    destruct (collect now cs threads) as [rest evs].
    cbn [fst snd] in *. rewrite IH1, IH2. split; reflexivity.
Qed.

(** X2.  The zip of line 221 pairs clients and threads by position: the first
    clients, as many as there are threads, get the result of the thread at
    their position; the clients after them are left as they were. *)
Theorem collect_pairs_by_position :
  forall (now : Z) (cs : list Player) (threads : list TurnThread),
    fst (collect now cs threads)
    = map (fun ct => fst (collect_one now (fst ct) (snd ct)))
          (combine cs threads)
      ++ skipn (List.length threads) cs
    /\ snd (collect now cs threads)
       = flat_map (fun ct => snd (collect_one now (fst ct) (snd ct)))
                  (combine cs threads).
Proof. exact collect_zip. Qed.

(** X4.  What one pair of the zip leaves on the client (lines 222-235): a
    thread still alive retires it under its own name with no actions; a
    thread that raised retires it with the error and no actions; a thread
    that returned gives it the actions returned, or none for [None], and
    changes nothing else. *)
Theorem collect_one_outcomes :
  forall (now : Z) (client : Player) (thr : TurnThread),
    collect_one now client thr
    = if is_alive thr now then
        (retire (id client
                 +++ " failed to reply in time and has been dropped.")
                (set_actions [] client),
         [Print (id client
                 +++ " failed to reply in time and has been dropped.")])
      else
        match func thr with
        | Returns _ r =>
            (set_actions (match r with Some a => a | None => [] end) client,
             [])
        | Raises _ msg => (retire msg (set_actions [] client), [Print msg])
        | Hangs => (set_actions [] client, [])
        end.
Proof.
  intros now client thr.
  unfold collect_one, result, thread_error, is_alive.
  destruct (func thr) as [d r | d msg |] eqn:Hf;
    unfold finished; rewrite Hf;
    try destruct (started thr + d <=? now); reflexivity.
Qed.

(** X1.  In a tick in which every client is functional and has a client
    object with [take_turn], every client ends with the outcome of its own
    call. *)
Theorem all_functional_clients_get_their_own_outcome :
  forall (mc : MC) (tick : Z) (cs : list Player) (now : Z),
    Forall (fun c => functional c = true /\ runnable c = true) cs ->
    let funcs := map (own_turn mc tick) cs in
    let after := run_turns cfg funcs cs now in
    build_threads mc tick cs = inr funcs
    /\ fst (fst after)
       = map (fun c =>
                fst (collect_one (snd after) c
                       (start (own_turn mc tick c) now)))
             cs.
Proof.
  intros mc tick cs now Hall.
  assert (Hfilter : filter functional cs = cs).
  { induction Hall as [| c cs [Hf _] _ IH]; [reflexivity |].
    cbn [filter]. rewrite Hf, IH. reflexivity. }
  assert (Hrun : forallb runnable cs = true).
  { clear Hfilter. induction Hall as [| c cs [Hf Hc] _ IH]; [reflexivity |].
    cbn [forallb]. rewrite IH, Hc. reflexivity. }
  intros funcs after. split.
  - rewrite (build_threads_filter _ _ _ Hrun), Hfilter.
    reflexivity.
  - subst after funcs. unfold run_turns. cbn [fst snd].
    rewrite (proj1 (collect_zip _ _ _)).
    rewrite !length_map, skipn_all, app_nil_r, map_map.
    assert (Hcomb : forall (f : Player -> TurnThread) l,
               combine l (map f l) = map (fun c => (c, f c)) l).
    { intros f l. induction l as [| c l IH]; [reflexivity |].
      cbn [map combine]. rewrite IH. reflexivity. }
    rewrite Hcomb, map_map. reflexivity.
Qed.

(** *** The time a tick waits *)

Lemma join_bounds R (thr : Thread R) timeout now :
  0 <= timeout ->
  now <= join thr timeout now <= now + timeout.
Proof.
  intros Ht. unfold join, finished.
  destruct (func thr) as [d r | d msg |].
  - destruct (Z.leb_spec (started thr + d) now); lia.
  - destruct (Z.leb_spec (started thr + d) now); lia.
  - lia.
Qed.

Lemma microsecond_bounds t : 0 <= microsecond t < 1000000.
Proof. unfold microsecond. apply Z.mod_pos_bound. lia. Qed.

(** X5.  The joins of lines 204-218 never turn the clock back, and no join
    waits longer than the budget plus the 999999 microseconds by which the
    subtraction of line 210 can be off: the whole collection is over
    within that much time per thread. *)
Theorem collection_time_bound :
  forall (t0 : Z) (threads : list TurnThread) (now : Z),
    now <= join_all cfg t0 threads now
    <= now + Z.of_nat (List.length threads)
             * Z.max 0 (MAX_SECONDS_PER_TURN cfg + 999999).
Proof.
  intros t0 threads. induction threads as [| thr threads IH]; intros now.
  - cbn [join_all List.length Z.of_nat]. lia.
  - cbn [join_all List.length].
    pose proof (microsecond_bounds now) as Hn.
    pose proof (microsecond_bounds t0) as H0.
    set (remaining := Z.max 0 (MAX_SECONDS_PER_TURN cfg
                               - (microsecond now - microsecond t0))).
    pose proof (join_bounds _ thr remaining now ltac:(subst remaining; lia))
      as Hj.
    specialize (IH (join thr remaining now)).
    assert (remaining <= Z.max 0 (MAX_SECONDS_PER_TURN cfg + 999999))
      by (subst remaining; lia).
    rewrite Nat2Z.inj_succ. nia.
Qed.

Lemma microsecond_same_second t0 now :
  t0 <= now -> microsecond t0 + (now - t0) < 1000000 ->
  microsecond now = microsecond t0 + (now - t0).
Proof.
  intros Hle Hsec. pose proof (microsecond_bounds t0) as H0.
  unfold microsecond in *.
  replace now with (t0 + (now - t0)) at 1 by lia.
  rewrite <- Zplus_mod_idemp_l. apply Z.mod_small. lia.
Qed.

Lemma total_late_nonneg late :
  Forall (fun d => 0 <= d) late -> 0 <= total_late late.
Proof.
  induction 1 as [| d late Hd _ IH]; cbn [total_late fold_right];
    [lia |]. unfold total_late in IH. lia.
Qed.

Lemma join_all_late_none t0 threads now :
  join_all_late cfg t0 threads [] now = join_all cfg t0 threads now.
Proof.
  revert now. induction threads as [| thr threads IH]; intros now;
    [reflexivity |].
  cbn [join_all_late join_all tl hd]. rewrite Z.add_0_r. apply IH.
Qed.

Lemma join_all_late_bound t0 threads :
  0 <= MAX_SECONDS_PER_TURN cfg ->
  forall late now spent,
    Forall (fun d => 0 <= d) late ->
    0 <= spent ->
    t0 <= now <= t0 + MAX_SECONDS_PER_TURN cfg + spent ->
    microsecond t0 + MAX_SECONDS_PER_TURN cfg + spent + total_late late
    < 1000000 ->
    t0 <= join_all_late cfg t0 threads late now
    <= t0 + MAX_SECONDS_PER_TURN cfg + spent + total_late late.
Proof.
  intros Hb. induction threads as [| thr threads IH];
    intros late now spent Hlate Hspent Hnow Hsec.
  - cbn [join_all_late]. pose proof (total_late_nonneg late Hlate). lia.
  - cbn [join_all_late].
    pose proof (total_late_nonneg late Hlate) as Htotal.
    rewrite (microsecond_same_second t0 now) by lia.
    set (remaining := Z.max 0 (MAX_SECONDS_PER_TURN cfg
                               - (microsecond t0 + (now - t0)
                                  - microsecond t0))).
    pose proof (join_bounds _ thr remaining now ltac:(subst remaining; lia))
      as Hj.
    destruct late as [| d late]; cbn [hd tl].
    + specialize (IH [] (join thr remaining now + 0) spent Hlate Hspent).
      cbn [total_late fold_right] in *.
      apply IH; subst remaining; lia.
    + inversion Hlate as [| d' late' Hd Hrest]; subst.
      specialize (IH late (join thr remaining now + d) (spent + d) Hrest).
      cbn [total_late fold_right] in *. fold (total_late late) in *.
      pose proof (total_late_nonneg late Hrest) as Htotal'.
      assert (Hgoal : t0 <= join_all_late cfg t0 threads late
                              (join thr remaining now + d)
                      <= t0 + MAX_SECONDS_PER_TURN cfg + (spent + d)
                         + total_late late).
      { apply IH; subst remaining; lia. }
      lia.
Qed.

(** X6.  When the budget, and the time by which the joins return late,
    end within the second in which the threads were started, the
    subtraction of line 210 is the elapsed time, and the whole collection
    is over within the budget and that lateness, however many threads
    there are.  (Nothing is said of a collection that reaches the next
    second: there the subtraction is off by a second and the next join
    waits anew.)  With no lateness this is the collection of [tick]. *)
Theorem collection_within_budget_inside_one_second :
  forall (t0 : Z) (threads : list TurnThread) (late : list Z),
    0 <= MAX_SECONDS_PER_TURN cfg ->
    Forall (fun d => 0 <= d) late ->
    microsecond t0 + MAX_SECONDS_PER_TURN cfg + total_late late < 1000000 ->
    t0 <= join_all_late cfg t0 threads late t0
    <= t0 + MAX_SECONDS_PER_TURN cfg + total_late late
    /\ join_all_late cfg t0 threads [] t0 = join_all cfg t0 threads t0.
Proof.
  intros t0 threads late Hb Hlate Hsec. split.
  - pose proof (join_all_late_bound t0 threads Hb late t0 0 Hlate) as Hbound.
    rewrite !Z.add_0_r in Hbound. apply Hbound; lia.
  - apply join_all_late_none.
Qed.

(** *** The sort of the clients *)

Lemma ltb_asym x y : String.ltb x y = true -> String.ltb y x = false.
Proof.
  unfold String.ltb. rewrite (String.compare_antisym x y).
  destruct (String.compare y x); simpl; congruence.
Qed.

Lemma insert_desc_Permutation x l : Permutation (x :: l) (insert_desc x l).
Proof.
  induction l as [| y l IH]; cbn [insert_desc]; [apply Permutation_refl |].
  destruct (String.ltb (fst x) (fst y)); [| apply Permutation_refl].
  eapply Permutation_trans; [apply perm_swap |].
  apply perm_skip. exact IH.
Qed.

Lemma sort_desc_Permutation l : Permutation l (fold_right insert_desc [] l).
Proof.
  induction l as [| x l IH]; cbn [fold_right]; [apply Permutation_refl |].
  eapply Permutation_trans; [apply perm_skip; exact IH |].
  apply insert_desc_Permutation.
Qed.

Lemma insert_desc_HdRel a x l :
  HdRel keys_descend a l -> keys_descend a x ->
  HdRel keys_descend a (insert_desc x l).
Proof.
  intros Hl Hx. destruct l as [| y l]; cbn [insert_desc].
  - constructor. exact Hx.
  - destruct (String.ltb (fst x) (fst y)).
    + constructor. inversion Hl. assumption.
    + constructor. exact Hx.
Qed.

Lemma insert_desc_Sorted x l :
  Sorted keys_descend l -> Sorted keys_descend (insert_desc x l).
Proof.
  induction 1 as [| y l Hs IH Hhd]; cbn [insert_desc].
  - repeat constructor.
  - destruct (String.ltb (fst x) (fst y)) eqn:Hlt.
    + constructor; [exact IH |].
      apply insert_desc_HdRel; [exact Hhd |].
      unfold keys_descend. apply ltb_asym. exact Hlt.
    + constructor; [constructor; assumption |].
      constructor. exact Hlt.
Qed.

Lemma sort_desc_Sorted l : Sorted keys_descend (fold_right insert_desc [] l).
Proof.
  induction l as [| x l IH]; cbn [fold_right]; [constructor |].
  apply insert_desc_Sorted. exact IH.
Qed.

Lemma sort_keys_named cs l :
  sort_keys cs = Some l ->
  Forall (fun kc => team_name (snd kc) = Some (fst kc)) l.
Proof.
  revert l. induction cs as [| c cs IH]; cbn [sort_keys]; intros l Hl.
  - inversion Hl. constructor.
  - destruct (team_name c) as [k |] eqn:Hk; [| discriminate].
    destruct (sort_keys cs) as [l' |]; [| discriminate].
    inversion Hl. constructor; [exact Hk | apply IH; reflexivity].
Qed.

Lemma Sorted_keys_to_clients l :
  Forall (fun kc => team_name (snd kc) = Some (fst kc)) l ->
  Sorted keys_descend l -> Sorted descending (map snd l).
Proof.
  intros Hnamed Hs. induction Hs as [| a l Hs IH Hhd]; cbn [map].
  - constructor.
  - inversion Hnamed as [| a' l' Ha Hl]; subst.
    constructor; [apply IH; exact Hl |].
    destruct Hhd as [| b l Hab]; cbn [map]; constructor.
    inversion Hl as [| b' l'' Hb _]; subst.
    unfold descending. rewrite Ha, Hb. exact Hab.
Qed.

Lemma sort_clients_sorted :
  forall (cs sorted : list Player),
    sort_clients cs = Some sorted ->
    Permutation cs sorted /\ Sorted descending sorted.
Proof.
  intros cs sorted. unfold sort_clients.
  destruct cs as [| c [| c' cs]].
  - intros Hs. inversion Hs. split; constructor.
  - intros Hs. inversion Hs. split; [apply Permutation_refl |].
    repeat constructor.
  - destruct (sort_keys (c :: c' :: cs)) as [l |] eqn:Hk; [| discriminate].
    intros Hs. inversion Hs. split.
    + rewrite <- (sort_keys_snd _ _ Hk) at 1.
      apply Permutation_map. apply sort_desc_Permutation.
    + apply Sorted_keys_to_clients; [| apply sort_desc_Sorted].
      pose proof (sort_keys_named _ _ Hk) as Hnamed.
      rewrite Forall_forall in *. intros kc Hin. apply Hnamed.
      eapply Permutation_in; [| exact Hin].
      apply Permutation_sym, sort_desc_Permutation.
Qed.

(** X19.  Line 143, when it does not raise: the clients are the same clients
    in another order, and no client stands before one with a greater
    team name. *)
Theorem sort_clients_permutes_and_orders :
  forall (cs sorted : list Player),
    sort_clients cs = Some sorted ->
    Permutation cs sorted /\ Sorted descending sorted.
Proof. exact sort_clients_sorted. Qed.

Lemma sort_keys_None cs :
  sort_keys cs = None <-> exists c, In c cs /\ team_name c = None.
Proof.
  induction cs as [| c cs IH]; cbn [sort_keys].
  - split; [discriminate | intros [c [[] _]]].
  - destruct (team_name c) as [k |] eqn:Hk.
    + destruct (sort_keys cs) as [l |].
      * split; [discriminate |].
        intros [c0 [[Heq | Hin] Hnone]]; [congruence |].
        assert (Hl : Some l = None) by (apply IH; eauto).
        discriminate.
      * split; [| reflexivity]. intros _.
        destruct (proj1 IH eq_refl) as [c0 [Hin Hnone]].
        exists c0. split; [right; exact Hin | exact Hnone].
    + split; [| reflexivity]. intros _. exists c. split; [left |]; auto.
Qed.

Lemma sort_clients_None :
  forall cs : list Player,
    sort_clients cs = None
    <-> (2 <= List.length cs)%nat
        /\ exists c, In c cs /\ team_name c = None.
Proof.
  intros cs. unfold sort_clients. destruct cs as [| c [| c' cs]].
  - split; [discriminate | cbn [List.length]; lia].
  - split; [discriminate | cbn [List.length]; lia].
  - destruct (sort_keys (c :: c' :: cs)) as [l |] eqn:Hk.
    + split; [discriminate |]. intros [_ Hex].
      apply sort_keys_None in Hex. congruence.
    + split; [| reflexivity]. intros _. split; [cbn [List.length]; lia |].
      apply sort_keys_None. exact Hk.
Qed.

(** X20.  Line 143 raises exactly when there are two clients or more and one of
    them has no team name. *)
Theorem sort_clients_raises_iff_a_client_is_unnamed :
  forall cs : list Player,
    sort_clients cs = None
    <-> (2 <= List.length cs)%nat
        /\ exists c, In c cs /\ team_name c = None.
Proof. exact sort_clients_None. Qed.

(** *** shutdown *)

Lemma clients_arg_who (e : Engine MC) :
  clients_arg cfg e
  = match who_of cfg e with
    | Some who => (Ret who, e)
    | None => (Exc "list index out of range", e)
    end.
Proof.
  unfold clients_arg, who_of, bind, get.
  destruct (single_client cfg); [destruct (clients e) |]; reflexivity.
Qed.

Lemma shutdown_result :
  forall (source : option string) (e : Engine MC),
    shutdown cfg source e
    = match who_of cfg e with
      | None => (Exc "list index out of range", logged e [WriteLogs])
      | Some who =>
          (if truthy source then Halt 1 else Ret tt,
           logged e
             [WriteLogs;
              WriteResults
                (return_final_results (master_controller e) who
                   (tick_number e))
                (if truthy source then source else None);
              Print (shutdown_message source (clients e));
              Flush])
      end.
Proof.
  intros source e. unfold shutdown. unfold bind at 1. unfold emit at 1.
  cbv beta iota. unfold bind at 1. rewrite clients_arg_who.
  unfold who_of, logged. cbn [clients].
  destruct (single_client cfg); [destruct (clients e) as [| c rest] |];
    try reflexivity;
    destruct source as [[| a s] |];
    cbv [bind get emit os_exit truthy shutdown_message];
    cbn [clients master_controller tick_number world current_world_key
         clock out];
    rewrite <- ?app_assoc; reflexivity.
Qed.


(** *** tick as a whole *)

(** [tick], statement by statement. *)
Lemma tick_result (e : Engine MC) :
  tick cfg e
  = match build_threads (master_controller e) (tick_number e)
            (clients e) with
    | inl x => (Exc x, e)
    | inr funcs =>
        let after := run_turns cfg funcs (clients e) (clock e) in
        let e1 := collected e (fst (fst after)) (snd (fst after))
                            (snd after) in
        match verify_num_clients (filter functional (fst (fst after)))
                (SET_NUMBER_OF_CLIENTS_CONTINUE cfg)
                (MIN_CLIENTS_CONTINUE cfg) (MAX_CLIENTS_CONTINUE cfg) with
        | Some _ =>
            match shutdown cfg (Some "Client_error") e1 with
            | (Ret _, e2) =>
                match who_of cfg e2 with
                | Some who =>
                    (Ret tt,
                     mkEngine (clients e2)
                       (turn_logic (master_controller e2) who
                          (tick_number e2))
                       (tick_number e2) (world e2) (current_world_key e2)
                       (clock e2) (out e2))
                | None => (Exc "list index out of range", e2)
                end
            | (Exc x, e2) => (Exc x, e2)
            | (Halt s, e2) => (Halt s, e2)
            end
        | None =>
            match who_of cfg e1 with
            | Some who =>
                (Ret tt,
                 mkEngine (clients e1)
                   (turn_logic (master_controller e1) who (tick_number e1))
                   (tick_number e1) (world e1) (current_world_key e1)
                   (clock e1) (out e1))
            | None => (Exc "list index out of range", e1)
            end
        end
    end.
Proof.
  unfold tick. unfold bind at 1. unfold get at 1. cbv beta iota.
  destruct (build_threads _ _ _) as [x | funcs]; [reflexivity |].
  cbv zeta. destruct (run_turns cfg funcs (clients e) (clock e))
    as [[cs evs] now'].
  cbn [fst snd]. unfold collected.
  unfold bind at 1. unfold set_clock at 1. cbv beta iota.
  unfold bind at 1. unfold set_clients at 1. cbv beta iota.
  unfold bind at 1. unfold emit_all at 1. cbv beta iota.
  cbn [clients master_controller tick_number world current_world_key
       clock out].
  unfold bind at 1.
  destruct (verify_num_clients _ _ _ _).
  - destruct (shutdown cfg (Some "Client_error") _) as [[[] | x | st] e2];
      try reflexivity.
    unfold bind at 1. rewrite clients_arg_who.
    destruct (who_of cfg e2); reflexivity.
  - unfold ret at 1. unfold bind at 1. rewrite clients_arg_who.
    match goal with
    | |- context [who_of cfg ?e1] => destruct (who_of cfg e1)
    end; reflexivity.
Qed.

Lemma collect_length now cs threads :
  List.length (fst (collect now cs threads)) = List.length cs.
Proof.
  symmetry. eapply Forall2_length. apply collect_flags_only_fall.
Qed.

Lemma who_of_some (e e' : Engine MC) :
  List.length (clients e') = List.length (clients e) ->
  who_of cfg e <> None -> who_of cfg e' <> None.
Proof.
  unfold who_of. destruct (single_client cfg); [| discriminate].
  destruct (clients e); [congruence |].
  destruct (clients e'); [discriminate 1 | discriminate].
Qed.

(** X8.  When [tick] returns, the number of functional clients is within the
    bounds to continue: with a number outside them [tick] does not
    return. *)
Theorem tick_returns_only_with_enough_clients :
  forall e : Engine MC,
    fst (tick cfg e) = Ret tt ->
    verify_num_clients (filter functional (clients (snd (tick cfg e))))
      (SET_NUMBER_OF_CLIENTS_CONTINUE cfg)
      (MIN_CLIENTS_CONTINUE cfg) (MAX_CLIENTS_CONTINUE cfg)
    = None.
Proof.
  intros e. rewrite tick_result.
  destruct (build_threads _ _ _) as [x | funcs]; [discriminate |].
  cbv zeta. destruct (verify_num_clients _ _ _ _) eqn:Hv.
  - rewrite shutdown_result.
    destruct (who_of cfg _); discriminate.
  - destruct (who_of cfg _); [| discriminate].
    intros _. exact Hv.
Qed.

(** X7.  A tick takes on itself what the clients do in their turns, not a
    client object without [take_turn].  When the controller can be given
    its clients, [tick] returns or, with too few clients left, exits with
    status 1, whatever the clients do in their turns, if every functional
    client has a client object with [take_turn]; if one has not, the
    lookup of line 196 raises and [tick] raises with it. *)
Theorem tick_does_not_raise :
  forall e : Engine MC,
    who_of cfg e <> None ->
    (forallb runnable (clients e) = true ->
     fst (tick cfg e) = Ret tt \/ fst (tick cfg e) = Halt 1)
    /\ (forallb runnable (clients e) = false ->
        exists msg,
          first_lookup_error (clients e) = Some msg
          /\ tick cfg e = (Exc msg, e)).
Proof.
  intros e Hwho. split.
  - intros Hrun. rewrite tick_result.
    rewrite (build_threads_filter _ _ _ Hrun). cbv zeta.
    set (funcs := map _ _).
    set (e1 := collected e _ _ _).
    assert (Hwho1 : who_of cfg e1 <> None).
    { eapply who_of_some; [| exact Hwho]. apply collect_length. }
    destruct (verify_num_clients _ _ _ _).
    + rewrite shutdown_result.
      destruct (who_of cfg e1); [right; reflexivity | congruence].
    + destruct (who_of cfg e1); [left; reflexivity | congruence].
  - intros Hrun. rewrite tick_result, build_threads_lookup.
    destruct (first_lookup_error (clients e)) as [msg |] eqn:Herr.
    + exists msg. split; reflexivity.
    + apply first_lookup_error_runnable in Herr. congruence.
Qed.

(** *** The loop of boot *)

Lemma boot_entry_result entry (e : Engine MC) :
  boot_entry cfg entry e
  = if is_client_file cfg entry then
      let r := boot_stages (replace_py (entry_name entry)) entry (clock e)
                           (Player_new (entry_id entry)) in
      (Ret tt, registered e (fst (fst r)) (map fst (snd (fst r))) (snd r))
    else (Ret tt, e).
Proof.
  unfold boot_entry, is_client_file.
  destruct (contains _ _); cbn [negb andb]; [| reflexivity].
  destruct (entry_isdir entry); cbn [negb]; [reflexivity |].
  unfold bind at 1. unfold get at 1. cbv beta iota zeta.
  destruct (boot_stages _ _ _ _) as [[player evs] now']. reflexivity.
Qed.

Lemma boot_stages_id filename entry now p :
  id (fst (fst (boot_stages filename entry now p))) = id p.
Proof. apply boot_stages_no_revival. Qed.

Lemma boot_loop_cons entry entries (e : Engine MC) :
  boot_loop cfg (entry :: entries) e
  = boot_loop cfg entries (snd (boot_entry cfg entry e)).
Proof.
  unfold boot_loop. cbn [for_each]. unfold bind.
  rewrite boot_entry_result.
  destruct (is_client_file cfg entry); reflexivity.
Qed.

Lemma boot_loop_players :
  forall (entries : list DirEntry) (e : Engine MC),
    fst (for_each (boot_entry cfg) entries e) = Ret tt
    /\ exists players,
         clients (boot_loop cfg entries e) = clients e ++ players
         /\ map id players
            = map entry_id (filter (is_client_file cfg) entries).
Proof.
  intros entries. induction entries as [| entry entries IH]; intros e.
  - split; [reflexivity |]. exists []. rewrite app_nil_r. split; reflexivity.
  - split.
    + cbn [for_each]. unfold bind. rewrite boot_entry_result.
      destruct (is_client_file cfg entry); apply IH.
    + rewrite boot_loop_cons, boot_entry_result. cbn [filter].
      destruct (is_client_file cfg entry).
      * cbv zeta. cbn [snd].
        destruct (IH (registered e
                        (fst (fst (boot_stages (replace_py (entry_name entry))
                                     entry (clock e)
                                     (Player_new (entry_id entry)))))
                        (map fst (snd (fst (boot_stages
                                     (replace_py (entry_name entry))
                                     entry (clock e)
                                     (Player_new (entry_id entry))))))
                        (snd (boot_stages (replace_py (entry_name entry))
                                entry (clock e)
                                (Player_new (entry_id entry))))))
          as [_ [players [Hc Hi]]].
        eexists (_ :: players). split.
        -- rewrite Hc. cbn [registered clients].
           rewrite <- app_assoc. reflexivity.
        -- cbn [map]. rewrite boot_stages_id, Hi. reflexivity.
      * cbn [snd]. apply IH.
Qed.

(** X14.  No [Exception] of a client file stops the loop of lines 67-130.
    For a keyword and names in ASCII, and whatever validation finds,
    whatever [Exception] the import or the constructor of a client raises
    and whatever its identity call does, the loop comes to its end and
    leaves exactly one player more for every name that has the keyword
    and is no directory, after the clients there were, in the order of
    the directory.  (An import or a constructor that raises [SystemExit],
    ends the process or never comes back is outside of this statement: it
    is not an [Exception] that lines 99 and 127 catch.) *)
Theorem boot_loop_ends_with_one_player_per_client_file :
  forall (entries : list DirEntry) (e : Engine MC),
    ascii_only (CLIENT_KEYWORD cfg) = true ->
    Forall (fun entry => ascii_only (entry_name entry) = true) entries ->
    fst (for_each (boot_entry cfg) entries e) = Ret tt
    /\ exists players,
         clients (boot_loop cfg entries e) = clients e ++ players
         /\ map id players
            = map entry_id (filter (is_client_file cfg) entries).
Proof. intros entries e _ _. apply boot_loop_players. Qed.

(** *** boot as a whole *)

(** [boot], statement by statement, after its loop. *)
Lemma boot_result (e : Engine MC) :
  boot cfg env e
  = let e1 := boot_loop cfg (client_directory env) e in
    match verify_num_clients (filter functional (clients e1))
            (SET_NUMBER_OF_CLIENTS_START cfg)
            (MIN_CLIENTS_START cfg) (MAX_CLIENTS_START cfg) with
    | Some _ => shutdown cfg (Some "Client_error") e1
    | None =>
        match sort_clients (clients e1) with
        | None =>
            (Exc "'<' not supported between instances of 'NoneType' and 'str'",
             e1)
        | Some sorted =>
            match who_of cfg (with_clients e1 sorted) with
            | Some who =>
                (Ret tt,
                 mkEngine sorted
                   (give_clients_objects (master_controller e1) who (world e1))
                   (tick_number e1) (world e1) (current_world_key e1)
                   (clock e1) (out e1))
            | None => (Exc "list index out of range", with_clients e1 sorted)
            end
        end
    end.
Proof.
  unfold boot, boot_loop. unfold bind at 1.
  pose proof (proj1 (boot_loop_players
                       (client_directory env) e)) as Hloop.
  destruct (for_each (boot_entry cfg) (client_directory env) e)
    as [r e1]. cbn [fst snd] in *. subst r.
  unfold bind at 1. unfold get at 1. cbv beta iota zeta.
  destruct (verify_num_clients _ _ _ _); [reflexivity |].
  destruct (sort_clients (clients e1)) as [sorted |]; [| reflexivity].
  unfold bind at 1. unfold set_clients at 1. cbv beta iota.
  unfold bind at 1. rewrite clients_arg_who. unfold with_clients.
  match goal with
  | |- context [who_of cfg ?e2] => destruct (who_of cfg e2)
  end; reflexivity.
Qed.

Lemma Permutation_filter_functional (l l' : list Player) :
  Permutation l l' -> Permutation (filter functional l) (filter functional l').
Proof.
  induction 1 as [| x l l' _ IH | x y l | l l' l'' _ IH1 _ IH2];
    cbn [filter].
  - constructor.
  - destruct (functional x); [apply perm_skip |]; exact IH.
  - destruct (functional x); destruct (functional y);
      try apply Permutation_refl. apply perm_swap.
  - eapply Permutation_trans; eassumption.
Qed.

Lemma verify_num_clients_length l l' a b c :
  List.length l = List.length l' ->
  verify_num_clients l a b c = verify_num_clients l' a b c.
Proof. intros Hl. unfold verify_num_clients. rewrite Hl. reflexivity. Qed.

(** X17.  When [boot] returns, the number of functional clients is within the
    bounds to start, and the clients stand in descending order of their
    team names. *)
Theorem boot_returns_with_enough_clients_in_order :
  forall e : Engine MC,
    fst (boot cfg env e) = Ret tt ->
    verify_num_clients (filter functional (clients (snd (boot cfg env e))))
      (SET_NUMBER_OF_CLIENTS_START cfg)
      (MIN_CLIENTS_START cfg) (MAX_CLIENTS_START cfg)
    = None
    /\ Sorted descending (clients (snd (boot cfg env e))).
Proof.
  intros e. rewrite boot_result. cbv zeta.
  set (e1 := boot_loop cfg (client_directory env) e).
  destruct (verify_num_clients _ _ _ _) eqn:Hv.
  - rewrite shutdown_result.
    destruct (who_of cfg e1); discriminate.
  - destruct (sort_clients (clients e1)) as [sorted |] eqn:Hs;
      [| discriminate].
    destruct (sort_clients_sorted _ _ Hs) as [Hperm Hsorted].
    destruct (who_of cfg (with_clients e1 sorted)); [| discriminate].
    intros _. cbn [snd clients]. split; [| exact Hsorted].
    rewrite <- Hv. apply verify_num_clients_length.
    apply Permutation_length, Permutation_filter_functional.
    apply Permutation_sym. exact Hperm.
Qed.

(** *** The functional flag through boot *)

Lemma verify_marks_clean scan p :
  functional (verify_marks scan p) = true ->
  functional p = true /\ ~ violation scan.
Proof.
  destruct scan as [[imports opening] printing].
  cbn [verify_marks violation].
  destruct imports as [| i imports]; destruct opening; cbn; intros Hf;
    try discriminate.
  split; [exact Hf |]. intros [Hi | Ho]; congruence.
Qed.

Lemma handshake_clean filename obj now p :
  functional (fst (fst (handshake filename obj now p))) = true ->
  functional p = true /\ ~ identity_fails obj.
Proof.
  unfold handshake, identity_fails.
  destruct (team_name_attr obj) as [msg | f]; [cbn; discriminate |].
  unfold is_alive, thread_error.
  destruct f as [d r | d msg |].
  - rewrite (finished_after_join _ (Returns d r) d)
      by (eauto using team_name_timeout_nonneg).
    cbn [start func fst].
    destruct (Z.leb_spec d team_name_timeout); cbn; [| discriminate].
    intros Hf. split; [exact Hf | lia].
  - rewrite (finished_after_join _ (Raises d msg) d)
      by (eauto using team_name_timeout_nonneg).
    cbn [start func fst].
    destruct (d <=? team_name_timeout); cbn; discriminate.
  - cbn. discriminate.
Qed.

(** The stages leave the flag set only on the path on which no check
    failed, and only if it was set when they began. *)
Lemma boot_stages_clean filename entry now p :
  functional (fst (fst (boot_stages filename entry now p))) = true ->
  functional p = true
  /\ ~ violation (entry_verify_code entry)
  /\ exists obj, entry_import entry = Imported obj /\ ~ identity_fails obj.
Proof.
  unfold boot_stages.
  destruct (entry_import entry) as [obj | traceback]; [| cbn; discriminate].
  pose proof (handshake_clean filename obj now
                (set_code (Some obj)
                   (verify_marks (entry_verify_code entry) p))) as Hh.
  destruct (handshake _ _ _ _) as [[p2 evs] now']. cbn [fst] in *.
  intros Hf. destruct (Hh Hf) as [Hp1 Hid].
  cbn [set_code functional] in Hp1.
  destruct (verify_marks_clean _ _ Hp1) as [Hp Hv].
  split; [exact Hp |]. split; [exact Hv |].
  exists obj. split; [reflexivity | exact Hid].
Qed.

(** The loop of lines 67-130 adds, for each name that passes the filters,
    the player built from that name, and touches no other client. *)
Lemma boot_loop_built :
  forall (entries : list DirEntry) (e : Engine MC),
    exists players,
      clients (boot_loop cfg entries e) = clients e ++ players
      /\ Forall2 built_from (filter (is_client_file cfg) entries) players.
Proof.
  intros entries. induction entries as [| entry entries IH]; intros e.
  - exists []. rewrite app_nil_r. split; [reflexivity | constructor].
  - rewrite boot_loop_cons, boot_entry_result. cbn [filter].
    destruct (is_client_file cfg entry); [| cbn [snd]; apply IH].
    cbv zeta. cbn [snd].
    match goal with
    | |- exists players,
           clients (boot_loop cfg entries ?e1) = _ /\ _ =>
        destruct (IH e1) as [players [Hc Hb]]
    end.
    eexists (_ :: players). split.
    + rewrite Hc. cbn [registered clients]. rewrite <- app_assoc. reflexivity.
    + constructor; [| exact Hb]. exists (clock e). reflexivity.
Qed.

Lemma boot_boots_own_players :
  keeps (boots_own_players (client_directory env)) (boot cfg env).
Proof.
  intros e. rewrite boot_result. cbv zeta.
  destruct (boot_loop_built (client_directory env) e)
    as [players [Hc Hb]].
  exists (is_client_file cfg), players. split; [exact Hb |].
  rewrite <- Hc.
  set (e1 := boot_loop cfg (client_directory env) e).
  destruct (verify_num_clients _ _ _ _).
  - rewrite <- (keeps_eq_shutdown cfg (Some "Client_error") e1).
    apply Permutation_refl.
  - destruct (sort_clients (clients e1)) as [sorted |] eqn:Hs;
      [| apply Permutation_refl].
    destruct (sort_clients_sorted _ _ Hs) as [Hperm _].
    destruct (who_of cfg (with_clients e1 sorted)); exact Hperm.
Qed.

(** C4.  No operation of the engine sets a functional flag.  [boot] leaves
    the clients it found untouched and adds, for names of the client
    directory, the player lines 80-126 built from that very name, one
    each (the sort only reorders).  Those lines never set the flag of the
    player they work on: they leave it set only if it was set when they
    began and no check failed (no violation, the module loaded, the
    identity call answered in time).  [pre_tick], [post_tick] and
    [shutdown] leave the clients as they are; [tick], and any number of
    rounds of the loop, keep every client in its place with its flag
    unchanged or cleared. *)
Theorem C4_functional_flag_is_never_set :
  keeps (boots_own_players (client_directory env)) (boot cfg env)
  /\ (forall filename entry now p,
        no_revival p (fst (fst (boot_stages filename entry now p))))
  /\ (forall filename entry now p,
        functional (fst (fst (boot_stages filename entry now p))) = true ->
        functional p = true
        /\ ~ violation (entry_verify_code entry)
        /\ exists obj,
             entry_import entry = Imported obj /\ ~ identity_fails obj)
  /\ keeps eq (pre_tick cfg)
  /\ keeps flags_only_fall (tick cfg)
  /\ keeps eq (post_tick cfg)
  /\ (forall source, keeps eq (shutdown cfg source))
  /\ (forall keys, keeps flags_only_fall (run_ticks cfg keys)).
Proof.
  split; [apply boot_boots_own_players |].
  split; [apply boot_stages_no_revival |].
  split; [apply boot_stages_clean |].
  split; [apply keeps_eq_pre_tick |].
  split; [apply keeps_fall_tick |].
  split; [apply keeps_eq_post_tick |].
  split; [apply keeps_eq_shutdown | apply keeps_fall_run_ticks].
Qed.





(** X16.  A client file that passes validation, loads, and gives its team name
    within 0.01 s leaves a functional player with that name, its file name
    and its client object, and no error; boot has waited as long as the
    call took. *)
Theorem clean_client_is_registered_with_its_name :
  forall (filename : string) (entry : DirEntry) (obj : UserClient)
         (d : Z) (name : string) (now : Z) (pid : string),
    fst (entry_verify_code entry) = ([], false) ->
    entry_import entry = Imported obj ->
    team_name_attr obj = TeamName (Returns d name) ->
    0 <= d <= team_name_timeout ->
    boot_stages filename entry now (Player_new pid)
    = (mkPlayer pid (Some filename) (Some name) true None [] (Some obj),
       [(VerifyCode (filename +++ ".py"), Player_new pid);
        (ImportModule filename, Player_new pid);
        (CallTeamName filename, set_code (Some obj) (Player_new pid))],
       now + d).
Proof.
  intros filename entry obj d name now pid Hscan Himp Hname Hd.
  unfold boot_stages. rewrite Himp.
  destruct (entry_verify_code entry) as [[imports opening] printing].
  cbn [fst] in Hscan. inversion Hscan; subst imports opening.
  cbn [verify_marks List.length Nat.eqb]. unfold handshake. rewrite Hname.
  unfold is_alive, thread_error, retrieve_value.
  rewrite (finished_after_join _ (Returns d name) d)
    by (eauto using team_name_timeout_nonneg).
  assert (Hjoin : join (start (Returns d name) now) team_name_timeout now
                  = now + d).
  { unfold join, finished, start. cbn [func started].
    destruct (Z.leb_spec (now + d) now); lia. }
  rewrite Hjoin. cbn [start func].
  destruct (Z.leb_spec d team_name_timeout); [| lia]. reflexivity.
Qed.

(** *** loop as a whole *)

Lemma halts_with_1_bind A B (m : M MC A) (k : A -> M MC B) :
  halts_with_1 m -> (forall a, halts_with_1 (k a)) ->
  halts_with_1 (bind m k).
Proof.
  intros Hm Hk e s. unfold bind. specialize (Hm e).
  destruct (m e) as [[a | x | s'] e']; cbn [fst] in *.
  - apply Hk.
  - discriminate.
  - intros Hs. inversion Hs; subst. apply Hm. reflexivity.
Qed.

Lemma halts_with_1_never A (m : M MC A) :
  (forall e s, fst (m e) <> Halt s) -> halts_with_1 m.
Proof. intros Hm e s Hs. destruct (Hm e s Hs). Qed.

(** Closes the case of a statement that does not exit. *)
Ltac no_exit := apply halts_with_1_never; intros ? ?; discriminate.

Lemma halts_with_1_clients_arg : halts_with_1 (clients_arg (MC := MC) cfg).
Proof.
  apply halts_with_1_never. intros e s. rewrite clients_arg_who.
  destruct (who_of cfg e); discriminate.
Qed.

Lemma halts_with_1_shutdown source : halts_with_1 (shutdown cfg source).
Proof.
  intros e s. rewrite shutdown_result.
  destruct (who_of cfg e); [| discriminate].
  destruct (truthy source); cbn [fst]; congruence.
Qed.

Lemma halts_with_1_load : halts_with_1 (load (MC := MC) env).
Proof.
  unfold load.
  destruct (negb (logs_dir_exists env)); [no_exit |].
  destruct (negb (game_map_exists env)); [no_exit |].
  apply halts_with_1_bind; [no_exit | intros _; no_exit].
Qed.

Lemma halts_with_1_boot : halts_with_1 (boot cfg env).
Proof.
  intros e s. rewrite boot_result. cbv zeta.
  destruct (verify_num_clients _ _ _ _); [apply halts_with_1_shutdown |].
  destruct (sort_clients _); [| discriminate].
  destruct (who_of cfg _); discriminate.
Qed.

Lemma halts_with_1_pre_tick : halts_with_1 (pre_tick cfg).
Proof.
  unfold pre_tick.
  apply halts_with_1_bind; [no_exit | intros e].
  apply halts_with_1_bind; [no_exit | intros _].
  apply halts_with_1_bind; [apply halts_with_1_clients_arg | intros who].
  apply halts_with_1_bind; [no_exit | intros e1]. no_exit.
Qed.

Lemma halts_with_1_tick : halts_with_1 (tick cfg).
Proof.
  intros e s. rewrite tick_result.
  destruct (build_threads _ _ _); [discriminate |]. cbv zeta.
  destruct (verify_num_clients _ _ _ _).
  - rewrite shutdown_result.
    destruct (who_of cfg _); [| discriminate].
    cbn [truthy fst]. congruence.
  - destruct (who_of cfg _); discriminate.
Qed.

Lemma halts_with_1_post_tick : halts_with_1 (post_tick cfg).
Proof.
  unfold post_tick.
  apply halts_with_1_bind; [apply halts_with_1_clients_arg | intros who].
  apply halts_with_1_bind; [no_exit | intros e].
  apply halts_with_1_bind; [no_exit | intros _].
  destruct (game_over _); [apply halts_with_1_shutdown | no_exit].
Qed.

Lemma halts_with_1_run_ticks keys : halts_with_1 (run_ticks cfg keys).
Proof.
  induction keys as [| key rest IH]; cbn [run_ticks]; [no_exit |].
  apply halts_with_1_bind; [no_exit | intros _].
  apply halts_with_1_bind; [apply halts_with_1_pre_tick | intros _].
  apply halts_with_1_bind; [apply halts_with_1_tick | intros _].
  apply halts_with_1_bind; [apply halts_with_1_post_tick | intros _].
  apply halts_with_1_bind; [no_exit | intros e].
  destruct (MAX_TICKS cfg <=? tick_number e); [no_exit | exact IH].
Qed.

Lemma who_of_all (e : Engine MC) :
  single_client cfg = false -> who_of cfg e = Some (All (clients e)).
Proof. intros Hs. unfold who_of. rewrite Hs. reflexivity. Qed.

(** X12.  Outside the single-client setting no [Exception] leaves [loop]:
    whatever [Exception] [load], [boot], a tick or the code of a client
    raises, [loop] returns or the process exits with status 1.  (The
    import and the constructor of a client run on the thread of the
    engine.  This is for those that come back, with an object or with an
    [Exception]: a [SystemExit] they raise is no [Exception] and leaves
    [loop] after the [shutdown] of line 57, and a module that ends the
    process or never comes back ends or stops the engine where it is.) *)
Theorem loop_returns_or_exits_with_1 :
  forall e : Engine MC,
    single_client cfg = false ->
    fst (loop cfg env e) = Ret tt \/ fst (loop cfg env e) = Halt 1.
Proof.
  intros e Hsingle. unfold loop, try_finally, try_except.
  match goal with
  | |- context [bind ?m ?k e] => assert (Hbody : halts_with_1 (bind m k))
  end.
  { apply halts_with_1_bind; [apply halts_with_1_load | intros _].
    apply halts_with_1_bind; [apply halts_with_1_boot | intros _].
    apply halts_with_1_bind; [no_exit | intros e1].
    apply halts_with_1_run_ticks. }
  specialize (Hbody e).
  match goal with
  | |- context [bind ?m ?k e] => destruct (bind m k e) as [[[] | x | s] e']
  end; cbn [fst] in *.
  - rewrite shutdown_result.
    rewrite who_of_all by exact Hsingle. left. reflexivity.
  - cbv beta iota delta [bind emit].
    match goal with
    | |- context [shutdown cfg None ?e1] =>
        rewrite (shutdown_result None e1);
        rewrite (who_of_all e1) by exact Hsingle
    end.
    left. reflexivity.
  - right. rewrite (Hbody s eq_refl). reflexivity.
Qed.

(** X13.  When the log directory or the game map is missing, [loop] loads no
    world and boots no client: it prints the exception and is over with
    the one [shutdown] of its [finally]. *)
Theorem loop_without_logs_or_map_only_shuts_down :
  forall (e : Engine MC) (msg : string),
    load_error env = Some msg ->
    loop cfg env e
    = shutdown cfg None
        (logged e [Print ("Exception raised during runtime: " +++ msg);
                   Print "None"]).
Proof.
  intros e msg Hmsg. unfold loop, try_finally, try_except.
  unfold bind at 1.
  assert (Hload : load env e = (Exc msg, e) :> Res unit * Engine MC).
  { unfold load, load_error, raise in *.
    destruct (negb (logs_dir_exists env));
      [inversion Hmsg; reflexivity |].
    destruct (negb (game_map_exists env));
      [inversion Hmsg; reflexivity | discriminate]. }
  rewrite Hload.
  unfold bind at 1. unfold emit at 1. cbv beta iota. unfold emit at 1.
  unfold logged. cbn [clients master_controller tick_number world
    current_world_key clock out]. rewrite <- app_assoc. cbn [app].
  destruct (shutdown cfg None _) as [[[] | y | s] e'']; reflexivity.
Qed.

(** *** How often shutdown runs when the game is never over *)








Section NoGameOver.

Hypothesis not_single : single_client cfg = false.
Hypothesis never_over : forall mc : MC, game_over mc = false.












End NoGameOver.


(** *** The tick counter *)

Lemma same_tick_bind A B (m : M MC A) (k : A -> M MC B) :
  same_tick m -> (forall a, same_tick (k a)) -> same_tick (bind m k).
Proof.
  intros Hm Hk e. unfold bind. specialize (Hm e).
  destruct (m e) as [[a | x | s] e']; cbn [snd] in *; try exact Hm.
  rewrite Hk. exact Hm.
Qed.

Lemma same_tick_shutdown source : same_tick (shutdown cfg source).
Proof.
  intros e. rewrite shutdown_result. destruct (who_of cfg e); reflexivity.
Qed.

Lemma same_tick_clients_arg : same_tick (clients_arg (MC := MC) cfg).
Proof.
  intros e. rewrite clients_arg_who. destruct (who_of cfg e); reflexivity.
Qed.

Lemma same_tick_load : same_tick (load (MC := MC) env).
Proof.
  intros e. unfold load.
  destruct (negb (logs_dir_exists env)); [reflexivity |].
  destruct (negb (game_map_exists env)); reflexivity.
Qed.

Lemma boot_loop_tick_number entries (e : Engine MC) :
  tick_number (boot_loop cfg entries e) = tick_number e.
Proof.
  revert e. induction entries as [| entry entries IH]; intros e;
    [reflexivity |].
  rewrite boot_loop_cons, IH, boot_entry_result.
  destruct (is_client_file cfg entry); reflexivity.
Qed.

Lemma same_tick_boot : same_tick (boot cfg env).
Proof.
  intros e. rewrite boot_result. cbv zeta.
  destruct (verify_num_clients _ _ _ _).
  - rewrite same_tick_shutdown. apply boot_loop_tick_number.
  - destruct (sort_clients _); [destruct (who_of cfg _) |];
      apply boot_loop_tick_number.
Qed.

Lemma same_tick_tick : same_tick (tick cfg).
Proof.
  intros e. rewrite tick_result.
  destruct (build_threads _ _ _); [reflexivity |]. cbv zeta.
  destruct (verify_num_clients _ _ _ _).
  - rewrite shutdown_result. destruct (who_of cfg _); reflexivity.
  - destruct (who_of cfg _); reflexivity.
Qed.

Lemma same_tick_post_tick : same_tick (post_tick cfg).
Proof.
  unfold post_tick.
  apply same_tick_bind; [apply same_tick_clients_arg | intros who].
  apply same_tick_bind; [intros e; reflexivity | intros e].
  apply same_tick_bind; [intros e0; reflexivity | intros _].
  destruct (game_over _); [apply same_tick_shutdown | intros e0; reflexivity].
Qed.

Lemma pre_tick_tick_number (e : Engine MC) :
  tick_number (snd (pre_tick cfg e)) = tick_number e + 1.
Proof.
  unfold pre_tick. unfold bind at 1. unfold get at 1. cbv beta iota.
  unfold bind at 1. unfold set_tick_number at 1. cbv beta iota.
  unfold bind at 1. rewrite clients_arg_who.
  destruct (who_of cfg _); reflexivity.
Qed.

(** X21.  The tick counter moves in [pre_tick] only, by one, also when
    [pre_tick] raises; [load], [boot], [tick], [post_tick] and [shutdown]
    leave it as it is, however they end. *)
Theorem tick_counter_moves_only_in_pre_tick :
  (forall e : Engine MC,
      tick_number (snd (pre_tick cfg e)) = tick_number e + 1)
  /\ same_tick (load (MC := MC) env)
  /\ same_tick (boot cfg env)
  /\ same_tick (tick cfg)
  /\ same_tick (post_tick cfg)
  /\ (forall source, same_tick (shutdown cfg source)).
Proof.
  split; [exact pre_tick_tick_number |].
  split; [exact same_tick_load |].
  split; [exact same_tick_boot |].
  split; [exact same_tick_tick |].
  split; [exact same_tick_post_tick | exact same_tick_shutdown].
Qed.

Lemma run_ticks_tick_bounds keys :
  forall (e : Engine MC) (t : Z),
    tick_number (snd (run_ticks cfg keys e)) = t ->
    tick_number e <= t <= tick_number e + Z.of_nat (List.length keys)
    /\ (keys <> [] -> t <= Z.max (MAX_TICKS cfg) (tick_number e + 1)).
Proof.
  induction keys as [| key rest IH]; intros e t Ht.
  - cbn in *. split; [lia | congruence].
  - cbn [run_ticks List.length] in *. rewrite Nat2Z.inj_succ.
    unfold bind at 1 in Ht. unfold set_current_world_key at 1 in Ht.
    cbv beta iota in Ht.
    set (e0 := mkEngine _ _ _ _ _ _ _) in Ht.
    assert (H0 : tick_number e0 = tick_number e) by reflexivity.
    unfold bind at 1 in Ht.
    pose proof (pre_tick_tick_number e0) as H1.
    destruct (pre_tick cfg e0) as [[[] | x | s] e1]; cbn [snd] in *;
      try (split; [lia | intros _; lia]).
    unfold bind at 1 in Ht.
    pose proof (same_tick_tick e1) as H2.
    destruct (tick cfg e1) as [[[] | x | s] e2]; cbn [snd] in *;
      try (split; [lia | intros _; lia]).
    unfold bind at 1 in Ht.
    pose proof (same_tick_post_tick e2) as H3.
    destruct (post_tick cfg e2) as [[[] | x | s] e3]; cbn [snd] in *;
      try (split; [lia | intros _; lia]).
    unfold bind at 1 in Ht. unfold get at 1 in Ht. cbv beta iota in Ht.
    destruct (Z.leb_spec (MAX_TICKS cfg) (tick_number e3)).
    + cbn [ret snd] in Ht. split; [lia | intros _; lia].
    + destruct (IH e3 t Ht) as [IHa IHb]. split; [lia |]. intros _.
      destruct rest as [| key' rest'].
      * cbn [run_ticks ret snd] in *. lia.
      * specialize (IHb ltac:(discriminate)). lia.
Qed.

(** X22.  The loop of lines 43-52 plays at most one tick per key, and, once
    the tick counter has reached [MAX_TICKS], no further tick: the
    counter ends at most at [MAX_TICKS], or one above where it started if
    that is more. *)
Theorem run_ticks_stops_at_the_tick_limit :
  forall (keys : list string) (e : Engine MC),
    tick_number e <= tick_number (snd (run_ticks cfg keys e))
    <= tick_number e + Z.of_nat (List.length keys)
    /\ (keys <> [] ->
        tick_number (snd (run_ticks cfg keys e))
        <= Z.max (MAX_TICKS cfg) (tick_number e + 1)).
Proof. intros keys e. apply run_ticks_tick_bounds. reflexivity. Qed.

(** *** The turn logs *)

Lemma turn_logs_app l l' : turn_logs (l ++ l') = turn_logs l ++ turn_logs l'.
Proof.
  induction l as [| ev l IH]; [reflexivity |].
  destruct ev; cbn [app turn_logs]; rewrite IH; reflexivity.
Qed.

Lemma collect_no_turn_logs now cs threads :
  turn_logs (snd (collect now cs threads)) = [].
Proof.
  revert threads. induction cs as [| c cs IH]; intros [| thr threads];
    try reflexivity.
  cbn [collect]. specialize (IH threads).
  assert (Hone : turn_logs (snd (collect_one now c thr)) = []).
  { unfold collect_one. destruct (is_alive thr now);
      destruct (thread_error thr now); reflexivity. }
  destruct (collect_one now c thr) as [c' ev].
  destruct (collect now cs threads) as [rest evs].
  cbn [snd] in *. rewrite turn_logs_app, Hone, IH. reflexivity.
Qed.

Lemma shutdown_no_turn_logs source (e : Engine MC) :
  exists evs,
    out (snd (shutdown cfg source e)) = out e ++ evs /\ turn_logs evs = [].
Proof.
  rewrite shutdown_result.
  destruct (who_of cfg e); eexists; split; reflexivity.
Qed.

Lemma pre_tick_out (e : Engine MC) : out (snd (pre_tick cfg e)) = out e.
Proof.
  unfold pre_tick. unfold bind at 1. unfold get at 1. cbv beta iota.
  unfold bind at 1. unfold set_tick_number at 1. cbv beta iota.
  unfold bind at 1. rewrite clients_arg_who.
  destruct (who_of cfg _); reflexivity.
Qed.

Lemma tick_no_turn_logs (e : Engine MC) :
  exists evs,
    out (snd (tick cfg e)) = out e ++ evs /\ turn_logs evs = [].
Proof.
  rewrite tick_result.
  destruct (build_threads _ _ _) as [x | funcs].
  - exists []. rewrite app_nil_r. split; reflexivity.
  - cbv zeta. set (after := run_turns cfg funcs (clients e) (clock e)).
    assert (Hq : turn_logs (snd (fst after)) = [])
      by apply collect_no_turn_logs.
    set (e1 := collected e _ _ _).
    assert (Hout1 : out e1 = out e ++ snd (fst after)) by reflexivity.
    destruct (verify_num_clients _ _ _ _).
    + destruct (shutdown_no_turn_logs (Some "Client_error") e1)
        as [evs [Hout Hlogs]].
      rewrite shutdown_result in *.
      destruct (who_of cfg e1); cbn [snd truthy] in *;
        exists (snd (fst after) ++ evs);
        (split; [rewrite Hout, Hout1, app_assoc; reflexivity
                | rewrite turn_logs_app, Hq, Hlogs; reflexivity]).
    + exists (snd (fst after)).
      destruct (who_of cfg e1); split; assumption.
Qed.

(** [post_tick], statement by statement. *)
Lemma post_tick_result (e : Engine MC) :
  post_tick cfg e
  = match who_of cfg e with
    | None => (Exc "list index out of range", e)
    | Some who =>
        let e1 := logged e [WriteTurnLog
                              (create_turn_log (master_controller e) who
                                 (tick_number e))
                              (tick_number e)] in
        if game_over (master_controller e) then shutdown cfg None e1
        else (Ret tt, e1)
    end.
Proof.
  unfold post_tick. unfold bind at 1. rewrite clients_arg_who.
  destruct (who_of cfg e) as [who |]; [| reflexivity].
  unfold bind at 1. unfold get at 1. cbv beta iota zeta.
  unfold bind at 1. unfold emit at 1. cbv beta iota.
  destruct (game_over (master_controller e)); reflexivity.
Qed.

Lemma post_tick_turn_log (e : Engine MC) :
  exists evs,
    out (snd (post_tick cfg e)) = out e ++ evs
    /\ (turn_logs evs = [tick_number e]
        \/ turn_logs evs = [] /\ fst (post_tick cfg e) <> Ret tt).
Proof.
  rewrite post_tick_result.
  destruct (who_of cfg e) as [who |].
  - cbv zeta. destruct (game_over (master_controller e)).
    + match goal with
      | |- context [shutdown cfg None ?e1] =>
          destruct (shutdown_no_turn_logs None e1) as [evs [Hout Hlogs]]
      end.
      eexists. split.
      * rewrite Hout. cbn [logged out]. rewrite <- app_assoc. reflexivity.
      * left. cbn [app turn_logs]. rewrite Hlogs. reflexivity.
    + eexists. split; [reflexivity | left; reflexivity].
  - exists []. split; [rewrite app_nil_r; reflexivity |].
    right. split; [reflexivity | discriminate].
Qed.

Lemma seq_from_next (t : Z) (k : nat) :
  map (fun i => t + 1 + Z.of_nat i) (seq 1 k)
  = map (fun i => t + Z.of_nat i) (seq 2 k).
Proof.
  rewrite <- (seq_shift k 1), map_map. apply map_ext. intros i. lia.
Qed.

Lemma run_ticks_turn_logs keys :
  forall (e : Engine MC) (o : list Event),
    out (snd (run_ticks cfg keys e)) = o ->
    exists evs k,
      o = out e ++ evs
      /\ (k <= List.length keys)%nat
      /\ turn_logs evs
         = map (fun i => tick_number e + Z.of_nat i) (seq 1 k).
Proof.
  induction keys as [| key rest IH]; intros e o Ho.
  - exists [], 0%nat. cbn in *. rewrite app_nil_r. auto.
  - cbn [run_ticks List.length] in *.
    unfold bind at 1 in Ho. unfold set_current_world_key at 1 in Ho.
    cbv beta iota in Ho.
    set (e0 := mkEngine _ _ _ _ _ _ _) in Ho.
    unfold bind at 1 in Ho.
    pose proof (pre_tick_tick_number e0) as Ht1.
    pose proof (pre_tick_out e0) as Ho1.
    destruct (pre_tick cfg e0) as [[[] | x | s] e1]; cbn [snd] in *;
      try (exists [], 0%nat; rewrite app_nil_r; subst o; repeat split;
           [exact Ho1 | lia]).
    unfold bind at 1 in Ho.
    pose proof (same_tick_tick e1) as Ht2.
    destruct (tick_no_turn_logs e1) as [evs2 [Ho2 Hl2]].
    destruct (tick cfg e1) as [[[] | x | s] e2]; cbn [snd] in *;
      try (exists evs2, 0%nat; subst o; repeat split;
           [rewrite Ho2, Ho1; reflexivity | lia | exact Hl2]).
    unfold bind at 1 in Ho.
    pose proof (same_tick_post_tick e2) as Ht3.
    destruct (post_tick_turn_log e2) as [evs3 [Ho3 Hl3]].
    destruct (post_tick cfg e2) as [[[] | x | s] e3] eqn:Hpost;
      cbn [fst snd] in *.
    + destruct Hl3 as [Hl3 | [_ Hne]]; [| congruence].
      unfold bind at 1 in Ho. unfold get at 1 in Ho. cbv beta iota in Ho.
      destruct (MAX_TICKS cfg <=? tick_number e3).
      * cbn [ret snd] in Ho. exists (evs2 ++ evs3), 1%nat. subst o.
        repeat split.
        -- rewrite Ho3, Ho2, Ho1, app_assoc. reflexivity.
        -- lia.
        -- rewrite turn_logs_app, Hl2, Hl3. cbn. f_equal.
           rewrite Ht2, Ht1. reflexivity.
      * destruct (IH e3 o Ho) as [evs [k [Hout [Hk Hlogs]]]].
        exists (evs2 ++ evs3 ++ evs), (S k). repeat split.
        -- rewrite Hout, Ho3, Ho2, Ho1, !app_assoc. reflexivity.
        -- lia.
        -- rewrite !turn_logs_app, Hl2, Hl3, Hlogs.
           rewrite Ht3, Ht2, Ht1. cbn [seq map app].
           f_equal; try reflexivity.
           exact (seq_from_next (tick_number e) k).
    + destruct Hl3 as [Hl3 | [Hl3 _]].
      * exists (evs2 ++ evs3), 1%nat. subst o. repeat split.
        -- rewrite Ho3, Ho2, Ho1, app_assoc. reflexivity.
        -- lia.
        -- rewrite turn_logs_app, Hl2, Hl3. cbn. f_equal.
           rewrite Ht2, Ht1. reflexivity.
      * exists (evs2 ++ evs3), 0%nat. subst o. repeat split.
        -- rewrite Ho3, Ho2, Ho1, app_assoc. reflexivity.
        -- lia.
        -- rewrite turn_logs_app, Hl2, Hl3. reflexivity.
    + destruct Hl3 as [Hl3 | [Hl3 _]].
      * exists (evs2 ++ evs3), 1%nat. subst o. repeat split.
        -- rewrite Ho3, Ho2, Ho1, app_assoc. reflexivity.
        -- lia.
        -- rewrite turn_logs_app, Hl2, Hl3. cbn. f_equal.
           rewrite Ht2, Ht1. reflexivity.
      * exists (evs2 ++ evs3), 0%nat. subst o. repeat split.
        -- rewrite Ho3, Ho2, Ho1, app_assoc. reflexivity.
        -- lia.
        -- rewrite turn_logs_app, Hl2, Hl3. reflexivity.
Qed.

(** X23.  The turn logs the loop of lines 43-52 writes are numbered by the
    ticks, one after the other from the first tick played, without a gap
    and without a repeat, at most one per key. *)
Theorem turn_logs_are_numbered_by_the_ticks :
  forall (keys : list string) (e : Engine MC),
    exists evs k,
      out (snd (run_ticks cfg keys e)) = out e ++ evs
      /\ (k <= List.length keys)%nat
      /\ turn_logs evs
         = map (fun i => tick_number e + Z.of_nat i) (seq 1 k).
Proof. intros keys e. apply run_ticks_turn_logs. reflexivity. Qed.

(** *** The fatal paths *)



End EngineMore.

(** ** The further properties on concrete inputs *)

Lemma all_functional_clients_witness :
  Forall (fun c => functional c = true /\ runnable c = true)
         [zed_player; abe_player]
  /\ build_threads (script ["1"] 100) 1 [zed_player; abe_player]
     = inr [Hangs; one_move].
Proof.
  assert (Hall : Forall (fun c => functional c = true /\ runnable c = true)
                        [zed_player; abe_player])
    by (repeat constructor).
  split; [exact Hall |].
  exact (proj1 (all_functional_clients_get_their_own_outcome
                  (range_config 1) (script ["1"] 100) 1
                  [zed_player; abe_player] 0 Hall)).
Defined.

Lemma collection_within_budget_witness :
  0 <= MAX_SECONDS_PER_TURN short_config
  /\ Forall (fun d => 0 <= d) [40; 25; 60]
  /\ microsecond 500000 + MAX_SECONDS_PER_TURN short_config
     + total_late [40; 25; 60] < 1000000
  /\ 500000
     <= join_all_late short_config 500000
          [start Hangs 500000; start one_move 500000; start Hangs 500000]
          [40; 25; 60] 500000
     <= 500000 + MAX_SECONDS_PER_TURN short_config + total_late [40; 25; 60].
Proof.
  assert (Hb : 0 <= MAX_SECONDS_PER_TURN short_config)
    by (cbn; lia).
  assert (Hl : Forall (fun d => 0 <= d) [40; 25; 60])
    by (repeat constructor; lia).
  assert (Hs : microsecond 500000 + MAX_SECONDS_PER_TURN short_config
               + total_late [40; 25; 60] < 1000000)
    by (vm_compute; reflexivity).
  split; [exact Hb |]. split; [exact Hl |]. split; [exact Hs |].
  exact (proj1 (collection_within_budget_inside_one_second short_config
                  500000
                  [start Hangs 500000; start one_move 500000;
                   start Hangs 500000]
                  [40; 25; 60] Hb Hl Hs)).
Defined.

Lemma sort_clients_witness :
  sort_clients [abe_player; zed_player] = Some [zed_player; abe_player]
  /\ Permutation [abe_player; zed_player] [zed_player; abe_player]
  /\ Sorted descending [zed_player; abe_player].
Proof.
  split; [reflexivity |].
  exact (sort_clients_permutes_and_orders
           [abe_player; zed_player] [zed_player; abe_player] eq_refl).
Defined.

Lemma tick_returns_witness :
  let cfg := range_config 1 in
  let e := snd (pre_tick cfg (after_boot cfg abe_alone (script ["1"] 100))) in
  fst (tick cfg e) = Ret tt
  /\ verify_num_clients (filter functional (clients (snd (tick cfg e))))
       (SET_NUMBER_OF_CLIENTS_CONTINUE cfg)
       (MIN_CLIENTS_CONTINUE cfg) (MAX_CLIENTS_CONTINUE cfg)
     = None.
Proof.
  intros cfg e.
  assert (Hret : fst (tick cfg e) = Ret tt) by (vm_compute; reflexivity).
  split; [exact Hret |].
  exact (tick_returns_only_with_enough_clients cfg e Hret).
Defined.

Lemma tick_does_not_raise_witness :
  let cfg := range_config 1 in
  let e := snd (pre_tick cfg (after_boot cfg (zed_rejected Hangs)
                                (script ["1"] 100))) in
  forallb runnable (clients e) = true
  /\ who_of cfg e <> None
  /\ (fst (tick cfg e) = Ret tt \/ fst (tick cfg e) = Halt 1).
Proof.
  intros cfg e.
  assert (Hrun : forallb runnable (clients e) = true)
    by (vm_compute; reflexivity).
  assert (Hwho : who_of cfg e <> None)
    by (vm_compute; discriminate).
  split; [exact Hrun |]. split; [exact Hwho |].
  exact (proj1 (tick_does_not_raise cfg e Hwho) Hrun).
Defined.


Lemma boot_loop_witness :
  let cfg := range_config 1 in
  let e := Engine_new (script ["1"] 100) 0 in
  ascii_only (CLIENT_KEYWORD cfg) = true
  /\ Forall (fun entry => ascii_only (entry_name entry) = true)
            (client_directory zed_hangs)
  /\ fst (for_each (boot_entry cfg) (client_directory zed_hangs) e) = Ret tt.
Proof.
  intros cfg e.
  assert (Hk : ascii_only (CLIENT_KEYWORD cfg) = true) by reflexivity.
  assert (Hn : Forall (fun entry => ascii_only (entry_name entry) = true)
                      (client_directory zed_hangs))
    by (cbv; repeat constructor).
  split; [exact Hk |]. split; [exact Hn |].
  exact (proj1 (boot_loop_ends_with_one_player_per_client_file cfg
                  (client_directory zed_hangs) e Hk Hn)).
Defined.

Lemma boot_returns_witness :
  let cfg := range_config 1 in
  let e := Engine_new (script ["1"] 100) 0 in
  fst (boot cfg zed_hangs e) = Ret tt
  /\ Sorted descending (clients (snd (boot cfg zed_hangs e))).
Proof.
  intros cfg e.
  assert (Hret : fst (boot cfg zed_hangs e) = Ret tt)
    by (vm_compute; reflexivity).
  split; [exact Hret |].
  exact (proj2 (boot_returns_with_enough_clients_in_order cfg zed_hangs e
                  Hret)).
Defined.


Lemma clean_client_witness :
  let entry := client_file "abe_client.py" "player-abe" "Abe" one_move in
  fst (entry_verify_code entry) = ([], false)
  /\ 0 <= 100 <= team_name_timeout
  /\ fst (fst (boot_stages "abe_client" entry 0 (Player_new "player-abe")))
     = abe_player
  /\ snd (boot_stages "abe_client" entry 0 (Player_new "player-abe")) = 100.
Proof.
  intros entry.
  assert (Hd : 0 <= 100 <= team_name_timeout)
    by (unfold team_name_timeout; lia).
  split; [reflexivity |]. split; [exact Hd |].
  rewrite (clean_client_is_registered_with_its_name
             "abe_client" entry (client_object "Abe" one_move) 100 "Abe" 0
             "player-abe" eq_refl eq_refl eq_refl Hd).
  split; reflexivity.
Defined.

Lemma loop_returns_or_exits_witness :
  single_client (range_config 1) = false
  /\ (fst (loop (range_config 1) zed_hangs
             (Engine_new (script ["1"] 100) 0)) = Ret tt
      \/ fst (loop (range_config 1) zed_hangs
                (Engine_new (script ["1"] 100) 0)) = Halt 1).
Proof.
  split; [reflexivity |].
  exact (loop_returns_or_exits_with_1 (range_config 1) zed_hangs
           (Engine_new (script ["1"] 100) 0) eq_refl).
Defined.

Lemma loop_without_logs_witness :
  let env := mkEnv false true "{}"
                   [client_file "abe_client.py" "player-abe" "Abe" one_move] in
  let e := Engine_new (script ["1"] 100) 0 in
  load_error env = Some "Log directory not found."
  /\ loop (range_config 1) env e
     = shutdown (range_config 1) None
         (logged e
            [Print "Exception raised during runtime: Log directory not found.";
             Print "None"]).
Proof.
  intros env e. split; [reflexivity |].
  exact (loop_without_logs_or_map_only_shuts_down (range_config 1) env e
           "Log directory not found." eq_refl).
Defined.



